(* ===================================================================== *)
(*  airbitz-core: general configuration cache, fee-estimate aggregator,  *)
(*  account synchronisation and repository discovery.                    *)
(*                                                                       *)
(*  Shallow embedding of abcd/General.cpp, abcd/account/Account.cpp and  *)
(*  abcd/login/Login.hpp, with the properties of the design document     *)
(*  stated and settled against it.                                       *)
(* ===================================================================== *)

From Stdlib Require Import ZArith List String Ascii Bool Lia.
From stdpp Require Import base option list gmap strings.
Import ListNotations.

Local Open Scope string_scope.
Local Open Scope list_scope.
Local Open Scope Z_scope.

(* ===================================================================== *)
(** * JSON documents (the part of jansson the code goes through)         *)
(* ===================================================================== *)

Module Json.

(** A parsed JSON value.  Real-valued numbers only occur in fields that
    nothing below reads (targetFeePercentage, incomingRate, percentage),
    so they are left out. *)
#[warnings="-register-all"]
Inductive json : Type :=
| JNull
| JBool (b : bool)
| JInteger (z : Z)
| JString (s : string)
| JArray (items : list json)
| JObject (members : list (string * json)).

Fixpoint assoc (key : string) (ms : list (string * json)) : option json :=
  match ms with
  | [] => None
  | (k, v) :: rest => if String.eqb k key then Some v else assoc key rest
  end.

Fixpoint assoc_set (key : string) (v : json) (ms : list (string * json))
  : list (string * json) :=
  match ms with
  | [] => [(key, v)]
  | (k, v') :: rest =>
      if String.eqb k key then (k, v) :: rest
      else (k, v') :: assoc_set key v rest
  end.

(** [json_object_get]: a null pointer (rendered [JNull]) when the root is
    not an object or has no such member. *)
Definition json_object_get (root : json) (key : string) : json :=
  match root with
  | JObject ms => match assoc key ms with Some v => v | None => JNull end
  | _ => JNull
  end.

(** Modelled from the spec: json/JsonObject.hpp is not among the sources.
    The setters its macros generate store one member; a root that is not
    an object yet becomes a fresh object first. *)
Definition json_object_set (root : json) (key : string) (v : json) : json :=
  match root with
  | JObject ms => JObject (assoc_set key v ms)
  | _ => JObject [(key, v)]
  end.

Definition json_is_string (j : json) : bool :=
  match j with JString _ => true | _ => false end.

(** [json_string_value] of a value already known to be a string. *)
Definition json_string_value (j : json) : string :=
  match j with JString s => s | _ => "" end.

(** [JsonArray::size] and [operator[]] walk the elements of an array and
    see no element in anything else ([json_array_size] is 0 there). *)
Definition json_array_items (j : json) : list json :=
  match j with JArray items => items | _ => [] end.

(** Modelled from the spec: json/JsonArray.hpp is not among the sources.
    [JsonArray::append] adds one element at the end; a root that is not
    an array is replaced by a fresh array first. *)
Definition json_array_append (j : json) (v : json) : json :=
  JArray (json_array_items j ++ [v]).

(** Modelled from the spec: json/JsonObject.hpp is not among the sources.
    [ABC_JSON_INTEGER(name, key, fallback)] generates a reader giving the
    member when it is an integer and [fallback] otherwise. *)
Definition getInteger (root : json) (key : string) (fallback : Z) : Z :=
  match json_object_get root key with
  | JInteger z => z
  | _ => fallback
  end.

(** Modelled from the spec: json/JsonObject.hpp is not among the sources.
    [ABC_JSON_STRING(name, key, fallback)] generates a reader giving the
    member when it is a string and [fallback] otherwise. *)
Definition getString (root : json) (key : string) (fallback : string) : string :=
  match json_object_get root key with
  | JString s => s
  | _ => fallback
  end.

End Json.
Export Json.

(* ===================================================================== *)
(** * The process state the code runs against                            *)
(* ===================================================================== *)

Module Env.

(** Modelled from the spec: Context.hpp and its [Paths] are not among
    the sources.  The three cache files (general configuration, server
    scores, fee estimates), named after the accessors that give their
    locations. *)
Inductive Path : Type := generalPath | serverScoresPath | feeCachePath.

(** A file on disk: its parsed contents ([None] when the bytes are not a
    JSON document) and its last-modified time in seconds. *)
Record File : Type := mkFile { body : option json; mtime : Z }.

Record Disk : Type := mkDisk {
  generalFile : option File;
  serverScoresFile : option File;
  feeCacheFile : option File
}.

Definition readFile (d : Disk) (p : Path) : option File :=
  match p with
  | generalPath => generalFile d
  | serverScoresPath => serverScoresFile d
  | feeCachePath => feeCacheFile d
  end.

Definition writeFile (d : Disk) (p : Path) (f : File) : Disk :=
  match p with
  | generalPath => mkDisk (Some f) (serverScoresFile d) (feeCacheFile d)
  | serverScoresPath => mkDisk (generalFile d) (Some f) (feeCacheFile d)
  | feeCachePath => mkDisk (generalFile d) (serverScoresFile d) (Some f)
  end.

(** The condition codes of ABC.h that the code below can meet. *)
Inductive tABC_CC : Type :=
| ABC_CC_Error
| ABC_CC_FileWriteError
| ABC_CC_FileDoesNotExist
| ABC_CC_AccountDoesNotExist
| ABC_CC_JSONError.

(** [Status]: success, or an error carrying its code. *)
Inductive Status : Type := Ok | Err (code : tABC_CC).

(** What the process does to the outside: file-system accesses, remote
    calls and log lines, most recent first. *)
Inductive Event : Type :=
| EvFileExists (p : Path)
| EvFileTime (p : Path)
| EvLoad (p : Path)
| EvSave (p : Path) (doc : json)
| EvFetch
| EvLog (code : tABC_CC).

(** The file-scope statics of the fee-estimate aggregator. *)
Record Estimator : Type := mkEstimator {
  estimatedFeesInitialized : bool;
  estimatedFees : list Z;
  estimatedFeesNumResponses : list Z
}.

Record World : Type := mkWorld {
  gContext : bool;            (* is the global context pointer set ? *)
  isTestnet : bool;
  clock : Z;                  (* what time(nullptr) returns *)
  disk : Disk;
  writable : Path -> bool;    (* does a save to this path go through ? *)
  server : option json;       (* what the login server would answer *)
  estimator : Estimator;
  trace : list Event
}.

Definition setDisk (w : World) (d : Disk) : World :=
  mkWorld (gContext w) (isTestnet w) (clock w) d (writable w) (server w)
          (estimator w) (trace w).

Definition setEstimator (w : World) (e : Estimator) : World :=
  mkWorld (gContext w) (isTestnet w) (clock w) (disk w) (writable w) (server w)
          e (trace w).

Definition emit (w : World) (ev : Event) : World :=
  mkWorld (gContext w) (isTestnet w) (clock w) (disk w) (writable w) (server w)
          (estimator w) (ev :: trace w).

(** Computations over the world.  [None] is undefined behaviour of the
    C++ program: a dereference of the unset context pointer or an array
    access out of bounds. *)
Definition M (A : Type) : Type := World -> option (A * World).

Definition ret {A} (a : A) : M A := fun w => Some (a, w).

Definition bind {A B} (m : M A) (k : A -> M B) : M B :=
  fun w => match m w with
           | Some (a, w') => k a w'
           | None => None
           end.

Definition undefined {A} : M A := fun _ => None.

Declare Scope world_scope.
Delimit Scope world_scope with world.
Notation "'do' x <- m ; k" := (bind m (fun x => k))
  (at level 10, x name, m at level 100, k at level 200) : world_scope.
Notation "'do' ' p <- m ; k" := (bind m (fun x => match x with p => k end))
  (at level 10, p pattern, m at level 100, k at level 200) : world_scope.
Notation "m ;; k" := (bind m (fun _ => k))
  (at level 100, k at level 200, right associativity) : world_scope.

Local Open Scope world_scope.

(** ** Primitives: context, clock, files, server, log *)

(** [gContext->paths.xxxPath()]: a dereference of the global context
    pointer, undefined when it is unset. *)
Definition contextPath (p : Path) : M Path :=
  fun w => if gContext w then Some (p, w) else None.

(** [!gContext] only tests the pointer. *)
Definition contextUnset : M bool := fun w => Some (negb (gContext w), w).

(** [isTestnet()], of bitcoin/Testnet.hpp: which network the build is
    for. *)
Definition testnet : M bool := fun w => Some (isTestnet w, w).

Definition time : M Z := fun w => Some (clock w, w).

(** Modelled from the spec: util/FileIO.hpp is not among the sources.
    [fileExists(path)]: is there such a file ? *)
Definition fileExists (p : Path) : M bool :=
  fun w => Some (match readFile (disk w) p with Some _ => true | None => false end,
                 emit w (EvFileExists p)).

(** Modelled from the spec: util/FileIO.hpp is not among the sources.
    [fileTime(lastTime, path)]: the last-modified time, or failure when
    the file is absent. *)
Definition fileTime (p : Path) : M (option Z) :=
  fun w => Some (match readFile (disk w) p with Some f => Some (mtime f) | None => None end,
                 emit w (EvFileTime p)).

(** Modelled from the spec: json/JsonPtr.hpp is not among the sources.
    [out.load(path)] reads the file wholesale: on success the document
    becomes the file's; on failure it stays what it was and the error is
    returned. *)
Definition load (p : Path) (out : json) : M (Status * json) :=
  fun w =>
    let w' := emit w (EvLoad p) in
    match readFile (disk w) p with
    | Some (mkFile (Some j) _) => Some ((Ok, j), w')
    | Some (mkFile None _) => Some ((Err ABC_CC_JSONError, out), w')
    | None => Some ((Err ABC_CC_FileDoesNotExist, out), w')
    end.

(** Modelled from the spec: json/JsonPtr.hpp is not among the sources.
    [doc.save(path)] writes the file wholesale, stamped with the current
    time, unless the path cannot be written. *)
Definition save (p : Path) (doc : json) : M Status :=
  fun w =>
    let w' := emit w (EvSave p doc) in
    if writable w p
    then Some (Ok, setDisk w' (writeFile (disk w') p (mkFile (Some doc) (clock w'))))
    else Some (Err ABC_CC_FileWriteError, w').

(** Modelled from the spec: login/server/LoginServer.hpp is not among
    the sources.  [loginServerGetGeneral(infoJson)]: one request to the
    remote configuration service, giving the document or a failure. *)
Definition loginServerGetGeneral : M (Status * json) :=
  fun w =>
    let w' := emit w EvFetch in
    match server w with
    | Some j => Some ((Ok, j), w')
    | None => Some ((Err ABC_CC_Error, JNull), w')
    end.

(** Modelled from the spec: util/Status.hpp is not among the sources.
    [Status::log()] writes a log line for an error, nothing otherwise. *)
Definition log (s : Status) : M unit :=
  fun w => match s with
           | Ok => Some (tt, w)
           | Err c => Some (tt, emit w (EvLog c))
           end.

(** Modelled from the spec: util/Status.hpp is not among the sources.
    [ABC_CHECK(e)] leaves the function with the error when [e] fails. *)
Definition ABC_CHECK (e : M Status) (rest : M Status) : M Status :=
  do s <- e;
  match s with
  | Ok => rest
  | Err c => ret (Err c)
  end.

Definition getEstimator : M Estimator := fun w => Some (estimator w, w).

Definition putEstimator (e : Estimator) : M unit :=
  fun w => Some (tt, setEstimator w e).

End Env.
Export Env.

(* ===================================================================== *)
(** * abcd/General.cpp                                                   *)
(* ===================================================================== *)

Module General.

Local Open Scope world_scope.

Definition FALLBACK_BITCOIN_SERVERS : list string :=
  [ "tcp://obelisk.airbitz.co:9091";
    "stratum://stratum-az-wusa.airbitz.co:50001";
    "stratum://stratum-az-wjapan.airbitz.co:50001";
    "stratum://stratum-az-neuro.airbitz.co:50001" ].

Definition TESTNET_BITCOIN_SERVERS : list string :=
  [ "tcp://obelisk-testnet.airbitz.co:9091" ].

Definition GENERAL_ACCEPTABLE_INFO_FILE_AGE_SECS : Z := 2.

Definition ESTIMATED_FEES_ACCEPTABLE_INFO_FILE_AGE_SECS : Z := 3 * 60 * 60.

(** ** The JSON views *)

(** A default-constructed document has no root. *)
Definition emptyJson : json := JNull.

Module BitcoinFeesJson.
Definition confirmFees1 (j : json) : Z := getInteger j "confirmFees1" 73210.
Definition confirmFees2 (j : json) : Z := getInteger j "confirmFees2" 62110.
Definition confirmFees3 (j : json) : Z := getInteger j "confirmFees3" 51098.
Definition confirmFees4 (j : json) : Z := getInteger j "confirmFees4" 46001.
Definition confirmFees5 (j : json) : Z := getInteger j "confirmFees5" 31002.
Definition confirmFees6 (j : json) : Z := getInteger j "confirmFees6" 26002.
Definition highFeeBlock (j : json) : Z := getInteger j "highFeeBlock" 1.
Definition standardFeeBlockHigh (j : json) : Z := getInteger j "standardFeeBlockHigh" 2.
Definition standardFeeBlockLow (j : json) : Z := getInteger j "standardFeeBlockLow" 3.
Definition lowFeeBlock (j : json) : Z := getInteger j "lowFeeBlock" 4.
End BitcoinFeesJson.

Module EstimateFeesJson.
Definition confirmFees1 (j : json) : Z := getInteger j "confirmFees1" 0.
Definition confirmFees2 (j : json) : Z := getInteger j "confirmFees2" 0.
Definition confirmFees3 (j : json) : Z := getInteger j "confirmFees3" 0.
Definition confirmFees4 (j : json) : Z := getInteger j "confirmFees4" 0.
Definition confirmFees5 (j : json) : Z := getInteger j "confirmFees5" 0.
Definition confirmFees6 (j : json) : Z := getInteger j "confirmFees6" 0.
Definition confirmFees1Set (j : json) (v : Z) : json := json_object_set j "confirmFees1" (JInteger v).
Definition confirmFees2Set (j : json) (v : Z) : json := json_object_set j "confirmFees2" (JInteger v).
Definition confirmFees3Set (j : json) (v : Z) : json := json_object_set j "confirmFees3" (JInteger v).
Definition confirmFees4Set (j : json) (v : Z) : json := json_object_set j "confirmFees4" (JInteger v).
Definition confirmFees5Set (j : json) (v : Z) : json := json_object_set j "confirmFees5" (JInteger v).
End EstimateFeesJson.

Module GeneralJson.
Definition bitcoinFees (j : json) : json := json_object_get j "minersFees2".
Definition airbitzFees (j : json) : json := json_object_get j "feesAirBitz".
Definition bitcoinServers (j : json) : json := json_object_get j "obeliskServers".
Definition syncServers (j : json) : json := json_object_get j "syncServers".
End GeneralJson.

Module ServerScoreJson.
Definition serverUrl (j : json) : string := getString j "serverUrl" "".
Definition serverScore (j : json) : Z := getInteger j "serverScore" 0.
Definition serverUrlSet (j : json) (v : string) : json := json_object_set j "serverUrl" (JString v).
Definition serverScoreSet (j : json) (v : Z) : json := json_object_set j "serverScore" (JInteger v).
End ServerScoreJson.

(** ** Case-insensitive comparison *)

(** [boost::iequals]: same length and equal characters once both are
    upper-cased (classic locale: only a..z change). *)
Definition to_upper (c : ascii) : ascii :=
  let n := nat_of_ascii c in
  if ((97 <=? n)%nat && (n <=? 122)%nat)%bool then ascii_of_nat (n - 32) else c.

Fixpoint iequals (a b : string) : bool :=
  match a, b with
  | EmptyString, EmptyString => true
  | String x a', String y b' => (Ascii.eqb (to_upper x) (to_upper y) && iequals a' b')%bool
  | _, _ => false
  end.

(** ** Loading the server scores *)

Definition serverScoresLoad : M json :=
  let out := emptyJson in
  do unset <- contextUnset;
  if unset then ret out else
  do scoresPath <- contextPath serverScoresPath;
  do present <- fileExists scoresPath;
  if negb present then ret out else
  do '(s, out) <- load scoresPath out;
  log s;;
  ret out.

(** ** generalUpdate *)

(** The inner loop over the score list: is there a record whose URL
    equals the new one up to case ? *)
Definition serversMatch (serverScoresJson : json) (serverUrlNew : string) : bool :=
  existsb (fun ssj => iequals (ServerScoreJson.serverUrl ssj) serverUrlNew)
          (json_array_items serverScoresJson).

(** The record built for a new server. *)
Definition ssjNew (serverUrlNew : string) : json :=
  ServerScoreJson.serverScoreSet
    (ServerScoreJson.serverUrlSet emptyJson serverUrlNew) 0.

(** One turn of the outer loop, on element [stringJson] of the fetched
    server array.  An element that is not a string leaves [serverUrlNew]
    empty. *)
Definition addNewServer (serverScoresJson : json) (stringJson : json) : json :=
  let serverUrlNew :=
    if json_is_string stringJson then json_string_value stringJson else "" in
  if serversMatch serverScoresJson serverUrlNew
  then serverScoresJson
  else json_array_append serverScoresJson (ssjNew serverUrlNew).

Definition addNewServers (serverScoresJson : json) (arrayJson : json) : json :=
  fold_left addNewServer (json_array_items arrayJson) serverScoresJson.

(** The staleness test shared by both caches: no file time, or a file
    time more than [age] seconds before now. *)
Definition needsUpdate (path : Path) (age : Z) : M bool :=
  do lastTime <- fileTime path;
  match lastTime with
  | None => ret true
  | Some t => do now <- time; ret (t + age <? now)
  end.

Definition generalUpdate : M Status :=
  do path <- contextPath generalPath;
  do scoresPath <- contextPath serverScoresPath;
  do stale <- needsUpdate path GENERAL_ACCEPTABLE_INFO_FILE_AGE_SECS;
  if stale then
    do '(s, infoJson) <- loginServerGetGeneral;
    ABC_CHECK (ret s) (
    ABC_CHECK (save path infoJson) (
      (* Add any new servers *)
      do serverScoresJson <- serverScoresLoad;
      do '(s, generalJson) <- load path emptyJson;
      log s;;
      let arrayJson := GeneralJson.bitcoinServers generalJson in
      do _ <- save scoresPath (addNewServers serverScoresJson arrayJson);
      ret Ok))
  else ret Ok.

(** ** generalLoad *)

Definition generalLoad : M json :=
  do unset <- contextUnset;
  if unset then ret emptyJson else
  do path <- contextPath generalPath;
  do present <- fileExists path;
  (if negb present then do s <- generalUpdate; log s else ret tt);;
  do '(s, out) <- load path emptyJson;
  log s;;
  ret out.

(** ** The fee-estimate cache *)

Definition estimateFeesLoad : M json :=
  do unset <- contextUnset;
  if unset then ret emptyJson else
  do path <- contextPath feeCachePath;
  do present <- fileExists path;
  if negb present then ret emptyJson else
  do '(s, out) <- load path emptyJson;
  log s;;
  ret out.

Definition generalEstimateFeesNeedUpdate : M bool :=
  do path <- contextPath feeCachePath;
  needsUpdate path ESTIMATED_FEES_ACCEPTABLE_INFO_FILE_AGE_SECS.

(** ** The fee-estimate aggregator *)

Definition to_uint64 (z : Z) : Z := z mod 2 ^ 64.

Definition in_uint64 (z : Z) : bool := (0 <=? z) && (z <? 2 ^ 64).

(** The statics as the process starts: zero-initialised. *)
Definition initialEstimator : Estimator :=
  mkEstimator false (replicate 6 0) (replicate 6 0).

Definition zeroBuckets (a : list Z) : list Z :=
  <[5%nat:=0]> (<[4%nat:=0]> (<[3%nat:=0]> (<[2%nat:=0]> (<[1%nat:=0]> a)))).

Definition initializeEstimator (e : Estimator) : Estimator :=
  if estimatedFeesInitialized e then e
  else mkEstimator true (zeroBuckets (estimatedFees e))
                        (zeroBuckets (estimatedFeesNumResponses e)).

(** The test that guards the save. *)
Definition allBucketsPositive (fees : list Z) : bool :=
  (0 <? fees !!! 1%nat) && (0 <? fees !!! 2%nat) && (0 <? fees !!! 3%nat) &&
  (0 <? fees !!! 4%nat) && (0 <? fees !!! 5%nat).

(** The document that gets saved. *)
Definition feesJson (fees : list Z) : json :=
  let j := emptyJson in
  let j := EstimateFeesJson.confirmFees1Set j (fees !!! 1%nat) in
  let j := EstimateFeesJson.confirmFees2Set j (fees !!! 2%nat) in
  let j := EstimateFeesJson.confirmFees3Set j (fees !!! 3%nat) in
  let j := EstimateFeesJson.confirmFees4Set j (fees !!! 4%nat) in
  let j := EstimateFeesJson.confirmFees5Set j (fees !!! 5%nat) in
  j.

(** [generalEstimateFeesUpdate(blocks, fee)].  [feeBase] stands for the
    value of [(uint64_t) (fee * 100000000.0)], the sample in base units.
    The means live in doubles but only ever hold integers; the product
    and the sum of the update are double arithmetic, taken here as exact
    (which it is below 2^53), and their conversion to the 64-bit
    unsigned [tempFee] is undefined out of range.  The response count is
    a [size_t] and wraps.  The whole body runs under the mutex, that is
    as one step.  Both arrays have 6 slots; an index past them is
    undefined. *)
Definition generalEstimateFeesUpdate (blocks : nat) (feeBase : Z) : M Status :=
  do e0 <- getEstimator;
  let e := initializeEstimator e0 in
  if (6 <=? blocks)%nat then undefined else
  (* Take the average of all the responses for a given block target *)
  let total :=
    (estimatedFees e !!! blocks) * (estimatedFeesNumResponses e !!! blocks) + feeBase in
  if negb (in_uint64 feeBase && in_uint64 total) then undefined else
  let tempFee := total in
  let responses := to_uint64 ((estimatedFeesNumResponses e !!! blocks) + 1) in
  if responses =? 0 then undefined else
  let fees := <[blocks := tempFee / responses]> (estimatedFees e) in
  putEstimator (mkEstimator true fees
                  (<[blocks := responses]> (estimatedFeesNumResponses e)));;
  if allBucketsPositive fees then
    (* Save the fees in a Json file *)
    do path <- contextPath feeCachePath;
    ABC_CHECK (save path (feesJson fees)) (ret Ok)
  else ret Ok.

(** ** generalBitcoinFeeInfo *)

(** Modelled from the spec: General.hpp is not among the sources.
    [BitcoinFeeInfo]: [confirmFees] is indexed 1..6 and slot 0 is unused
    (0 here); the fees are doubles holding the integers read, compared as
    such; [targetFeePercentage], a real, is not carried. *)
Record BitcoinFeeInfo : Type := mkBitcoinFeeInfo {
  confirmFees : list Z;
  lowFeeBlock : Z;
  standardFeeBlockLow : Z;
  standardFeeBlockHigh : Z;
  highFeeBlock : Z
}.

(** [estimate ? estimate : fallback] *)
Definition orElse (estimate fallback : Z) : Z :=
  if estimate =? 0 then fallback else estimate.

(** The six assignments that choose estimate or cached fee. *)
Definition chooseFees (feeJson estimateFeesJson : json) : list Z :=
  let c := replicate 7 0 in
  let c := <[1%nat := orElse (EstimateFeesJson.confirmFees1 estimateFeesJson)
                             (BitcoinFeesJson.confirmFees1 feeJson)]> c in
  let c := <[2%nat := orElse (EstimateFeesJson.confirmFees2 estimateFeesJson)
                             (BitcoinFeesJson.confirmFees2 feeJson)]> c in
  let c := <[3%nat := orElse (EstimateFeesJson.confirmFees3 estimateFeesJson)
                             (BitcoinFeesJson.confirmFees3 feeJson)]> c in
  let c := <[4%nat := orElse (EstimateFeesJson.confirmFees4 estimateFeesJson)
                             (BitcoinFeesJson.confirmFees4 feeJson)]> c in
  let c := <[5%nat := orElse (EstimateFeesJson.confirmFees5 estimateFeesJson)
                             (BitcoinFeesJson.confirmFees5 feeJson)]> c in
  let c := <[6%nat := orElse (EstimateFeesJson.confirmFees6 estimateFeesJson)
                             (BitcoinFeesJson.confirmFees6 feeJson)]> c in
  c.

(** Fix any fees that contradict. ie. confirmFees1 < confirmFees2 *)
Definition fixFees (c : list Z) : list Z :=
  let c := if c !!! 2%nat >? c !!! 1%nat then <[2%nat := c !!! 1%nat]> c else c in
  let c := if c !!! 3%nat >? c !!! 2%nat then <[3%nat := c !!! 2%nat]> c else c in
  let c := if c !!! 4%nat >? c !!! 3%nat then <[4%nat := c !!! 3%nat]> c else c in
  let c := if c !!! 5%nat >? c !!! 4%nat then <[5%nat := c !!! 4%nat]> c else c in
  let c := if c !!! 6%nat >? c !!! 5%nat then <[6%nat := c !!! 5%nat]> c else c in
  c.

Definition bitcoinFeeInfo (feeJson estimateFeesJson : json) : BitcoinFeeInfo :=
  mkBitcoinFeeInfo
    (fixFees (chooseFees feeJson estimateFeesJson))
    (BitcoinFeesJson.lowFeeBlock feeJson)
    (BitcoinFeesJson.standardFeeBlockLow feeJson)
    (BitcoinFeesJson.standardFeeBlockHigh feeJson)
    (BitcoinFeesJson.highFeeBlock feeJson).

(** The closing debug print of the function is left out. *)
Definition generalBitcoinFeeInfo : M BitcoinFeeInfo :=
  do generalJson <- generalLoad;
  let feeJson := GeneralJson.bitcoinFees generalJson in
  do estimateFeesJson <- estimateFeesLoad;
  ret (bitcoinFeeInfo feeJson estimateFeesJson).

(** ** The server lists *)

(** The loop that keeps the string elements of an array. *)
Definition stringElements (arrayJson : json) : list string :=
  flat_map (fun stringJson =>
              if json_is_string stringJson then [json_string_value stringJson] else [])
           (json_array_items arrayJson).

Definition generalBitcoinServers : M (list string) :=
  do t <- testnet;
  if t then ret TESTNET_BITCOIN_SERVERS else
  do generalJson <- generalLoad;
  let out := stringElements (GeneralJson.bitcoinServers generalJson) in
  if (length out =? 0)%nat then ret (out ++ FALLBACK_BITCOIN_SERVERS) else ret out.

Definition generalSyncServers : M (list string) :=
  do generalJson <- generalLoad;
  let out := stringElements (GeneralJson.syncServers generalJson) in
  if (length out =? 0)%nat then ret (out ++ ["https://git.sync.airbitz.co/repos"])
  else ret out.

(** ** generalAirbitzFeeInfo *)

Module AirbitzFeesJson.
Definition addresses (j : json) : json := json_object_get j "addresses".
Definition incomingMax (j : json) : Z := getInteger j "incomingMax" 0.
Definition incomingMin (j : json) : Z := getInteger j "incomingMin" 0.
Definition outgoingMax (j : json) : Z := getInteger j "maxSatoshi" 0.
Definition outgoingMin (j : json) : Z := getInteger j "minSatoshi" 0.
Definition noFeeMinSatoshi (j : json) : Z := getInteger j "noFeeMinSatoshi" 0.
Definition sendMin (j : json) : Z := getInteger j "sendMin" 4000.
Definition sendPeriod (j : json) : Z := getInteger j "sendPeriod" (7 * 24 * 60 * 60).
Definition sendPayee (j : json) : string := getString j "sendPayee" "Airbitz".
Definition sendCategory (j : json) : string := getString j "sendCategory" "Expense:Fees".
End AirbitzFeesJson.

(** Modelled from the spec: General.hpp is not among the sources.
    [AirbitzFeeInfo]: [addresses] is a [std::set] of strings; the two
    rates, reals, are not carried. *)
Record AirbitzFeeInfo : Type := mkAirbitzFeeInfo {
  addresses : gset string;
  incomingMin : Z;
  incomingMax : Z;
  outgoingMin : Z;
  outgoingMax : Z;
  noFeeMinSatoshi : Z;
  sendMin : Z;
  sendPeriod : Z;
  sendPayee : string;
  sendCategory : string
}.

(** The loop that inserts the string elements of the array into the
    address set. *)
Definition insertAddresses (arrayJson : json) : gset string :=
  fold_left (fun out stringJson =>
               if json_is_string stringJson
               then {[ json_string_value stringJson ]} ∪ out
               else out)
            (json_array_items arrayJson) ∅.

Definition generalAirbitzFeeInfo : M AirbitzFeeInfo :=
  do generalJson <- generalLoad;
  let feeJson := GeneralJson.airbitzFees generalJson in
  ret (mkAirbitzFeeInfo
         (insertAddresses (AirbitzFeesJson.addresses feeJson))
         (AirbitzFeesJson.incomingMin feeJson)
         (AirbitzFeesJson.incomingMax feeJson)
         (AirbitzFeesJson.outgoingMin feeJson)
         (AirbitzFeesJson.outgoingMax feeJson)
         (AirbitzFeesJson.noFeeMinSatoshi feeJson)
         (AirbitzFeesJson.sendMin feeJson)
         (AirbitzFeesJson.sendPeriod feeJson)
         (AirbitzFeesJson.sendPayee feeJson)
         (AirbitzFeesJson.sendCategory feeJson)).

End General.

(* ===================================================================== *)
(** * abcd/login/Login.hpp                                               *)
(* ===================================================================== *)

Module Login.

Definition DataChunk : Type := list Byte.byte.

(** Holds the keys for a logged-in account.  All members are immutable
    after init. *)
Record Login : Type := mkLogin {
  lobby : string;          (* the lobby, by its user name *)
  dataKey_ : DataChunk;
  syncKey_ : string
}.

(** Obtains the master key for the account. *)
Definition dataKey (login : Login) : DataChunk := dataKey_ login.

(** Obtains the data-sync key for the account. *)
Definition syncKey (login : Login) : string := syncKey_ login.

(** The descriptor [repoFind] fills in: master key and repository
    identifier. *)
Record RepoInfo : Type := mkRepoInfo {
  repoDataKey : DataChunk;
  repoSyncKey : string
}.

(** The remote account store, as far as repository discovery sees it:
    whether it answers, and which repositories it has provisioned. *)
Record Remote : Type := mkRemote {
  reachable : bool;
  repositories : list string
}.

Definition provisioned (id : string) (remote : Remote) : bool :=
  existsb (String.eqb id) (repositories remote).

Section RepoFind.

(** The derivation of a repository identifier from the master key and
    the purpose: some fixed pure function. *)
Variable deriveRepositoryId : DataChunk -> string -> string.

(** Modelled from the spec: [Login::repoFind] is called by
    [Account::create] but neither declared in Login.hpp nor defined in
    the sources.  It derives the identifier for the purpose from the
    session master key; when the remote side does not have the
    repository it provisions it if [create] is set and fails otherwise;
    an unreachable remote is a failure as well.  [result] is the
    caller's descriptor, assigned on success only; a repository that is
    not found is reported with the nearest condition code of ABC.h. *)
Definition repoFind (login : Login) (result : RepoInfo) (type : string)
    (create : bool) (remote : Remote) : (Status * RepoInfo) * Remote :=
  if negb (reachable remote) then ((Err ABC_CC_Error, result), remote) else
  let id := deriveRepositoryId (dataKey login) type in
  let info := mkRepoInfo (dataKey login) id in
  if provisioned id remote then ((Ok, info), remote)
  else if create
       then ((Ok, info), mkRemote (reachable remote) (id :: repositories remote))
       else ((Err ABC_CC_AccountDoesNotExist, result), remote).

End RepoFind.

End Login.

(* ===================================================================== *)
(** * abcd/account/Account.cpp                                           *)
(* ===================================================================== *)

Module Account.

Import Login.

(** The calls an account makes into util/Sync.hpp and into its wallet
    list, most recent first. *)
Inductive Invocation : Type :=
| InvSyncRepo
| InvSyncEnsureRepo (tempPath : string)
| InvWalletsLoad.

Section Account.

(** [Repos]: what lies behind the sync directory, working copies and
    the remote repositories they follow.  [Wallets]: the in-memory
    wallet list. *)
Context {Repos Wallets : Type}.

(** [syncRepo(syncDir, syncKey, dirty)]: pulls; [dirty] is an in-out
    parameter. *)
Variable syncRepo : string -> string -> bool -> Repos -> (Status * bool) * Repos.

(** [syncEnsureRepo(syncDir, tempDir, syncKey)] *)
Variable syncEnsureRepo : string -> string -> string -> Repos -> Status * Repos.

(** [wallets.load()]: reads the wallet list of the account directory. *)
Variable walletsLoad : string -> Repos -> Wallets -> Status * Wallets.

(** [login.paths.dir()] and [login.paths.syncDir()] *)
Variable loginDir : Login -> string.
Variable loginSyncDir : Login -> string.

Record Account : Type := mkAccount {
  login : Login;
  dir_ : string;
  dataKey_ : DataChunk;
  syncKey_ : string;
  wallets : Wallets
}.

Definition dir (a : Account) : string := dir_ a.

(** An account together with what it acts on. *)
Record State : Type := mkState {
  account : Account;
  repos : Repos;
  invocations : list Invocation
}.

Definition setWallets (a : Account) (ws : Wallets) : Account :=
  mkAccount (login a) (dir_ a) (dataKey_ a) (syncKey_ a) ws.

Definition load (s : State) : Status * State :=
  (* If the sync dir doesn't exist, create it: *)
  let a := account s in
  let tempPath := (loginDir (login a) ++ "tmp/")%string in
  let '(st, r) := syncEnsureRepo (dir a) tempPath (syncKey_ a) (repos s) in
  let s1 := mkState a r (InvSyncEnsureRepo tempPath :: invocations s) in
  match st with
  | Err c => (Err c, s1)
  | Ok =>
      let '(st, ws) := walletsLoad (dir a) r (wallets a) in
      let s2 := mkState (setWallets a ws) r (InvWalletsLoad :: invocations s1) in
      match st with
      | Err c => (Err c, s2)
      | Ok => (Ok, s2)
      end
  end.

(** [Account::sync(dirty)]: the status, the final value of [dirty], and
    the state left behind. *)
Definition sync (dirty : bool) (s : State) : (Status * bool) * State :=
  let a := account s in
  let '((st, dirty), r) := syncRepo (dir a) (syncKey_ a) dirty (repos s) in
  let s1 := mkState a r (InvSyncRepo :: invocations s) in
  match st with
  | Err c => ((Err c, dirty), s1)
  | Ok =>
      if dirty
      then let '(st, s2) := load s1 in
           match st with
           | Err c => ((Err c, dirty), s2)
           | Ok => ((Ok, dirty), s2)
           end
      else ((Ok, dirty), s1)
  end.

(** The constructor; the wallet list starts out empty. *)
Definition newAccount (l : Login) (dataKey : DataChunk) (syncKey : string)
    (noWallets : Wallets) : Account :=
  mkAccount l (loginSyncDir l) dataKey syncKey noWallets.

Variable deriveRepositoryId : DataChunk -> string -> string.

(** [Account::create(result, login)]: [result] is assigned only at the
    end. *)
Definition create (l : Login) (accountType : string) (noWallets : Wallets)
    (remote : Remote) (r : Repos) : (Status * option State) * Remote :=
  let repoInfo := mkRepoInfo [] "" in
  let '((st, repoInfo), remote') :=
    repoFind deriveRepositoryId l repoInfo accountType true remote in
  match st with
  | Err c => ((Err c, None), remote')
  | Ok =>
      let out := newAccount l (repoDataKey repoInfo) (repoSyncKey repoInfo) noWallets in
      let '(st, s) := load (mkState out r []) in
      match st with
      | Err c => ((Err c, None), remote')
      | Ok => ((Ok, Some s), remote')
      end
  end.

End Account.

End Account.

(* ===================================================================== *)
(** * Notions the properties are stated with                             *)
(* ===================================================================== *)

Module Notions.

Import General Account.

(** ** Running the module *)

Local Open Scope world_scope.

(** The entry points of the file, as calls a client can make. *)
Inductive Call : Type :=
| CallGeneralUpdate
| CallEstimateFeesNeedUpdate
| CallEstimateFeesUpdate (blocks : nat) (feeBase : Z)
| CallBitcoinFeeInfo
| CallBitcoinServers
| CallSyncServers.

(** One call, its result dropped. *)
Definition call (c : Call) : M unit :=
  match c with
  | CallGeneralUpdate => generalUpdate;; ret tt
  | CallEstimateFeesNeedUpdate => generalEstimateFeesNeedUpdate;; ret tt
  | CallEstimateFeesUpdate blocks feeBase => generalEstimateFeesUpdate blocks feeBase;; ret tt
  | CallBitcoinFeeInfo => generalBitcoinFeeInfo;; ret tt
  | CallBitcoinServers => generalBitcoinServers;; ret tt
  | CallSyncServers => generalSyncServers;; ret tt
  end.

Fixpoint run (cs : list Call) : M unit :=
  match cs with
  | [] => ret tt
  | c :: rest => call c;; run rest
  end.

(** A sequence of fee samples, each with its bucket. *)
Definition submitAll (samples : list (nat * Z)) : M unit :=
  run (map (fun s => CallEstimateFeesUpdate (fst s) (snd s)) samples).

(** A process that has just started, with its context set up: nothing
    cached, the statics zero. *)
Definition freshWorld (testnet : bool) (now : Z) (srv : option json)
    (wr : Path -> bool) : World :=
  mkWorld true testnet now (mkDisk None None None) wr srv initialEstimator [].

(** ** The aggregator *)

(** The mean and the response count the statics hold for a bucket. *)
Definition bucket (e : Estimator) (b : nat) : Z * Z :=
  (estimatedFees e !!! b, estimatedFeesNumResponses e !!! b).

(** The update rule in the words of the design document:
    newMean = (oldMean * oldCount + sample) / (oldCount + 1), on
    integers, and the count goes up by one. *)
Definition meanStep (st : Z * Z) (x : Z) : Z * Z :=
  ((fst st * snd st + x) / (snd st + 1), snd st + 1).

Definition runningMean (xs : list Z) : Z * Z := fold_left meanStep xs (0, 0).

(** The samples of a submission sequence that went to bucket [b], in
    the order they came. *)
Definition samplesOf (b : nat) (samples : list (nat * Z)) : list Z :=
  map snd (List.filter (fun s => Nat.eqb (fst s) b) samples).

Definition sum (xs : list Z) : Z := fold_right Z.add 0 xs.

(** The statics after one call that does not run into undefined
    behaviour. *)
Definition nextEstimator (blocks : nat) (feeBase : Z) (e0 : Estimator) : Estimator :=
  let e := initializeEstimator e0 in
  let tempFee :=
    (estimatedFees e !!! blocks) * (estimatedFeesNumResponses e !!! blocks) + feeBase in
  let responses := to_uint64 ((estimatedFeesNumResponses e !!! blocks) + 1) in
  mkEstimator true (<[blocks := tempFee / responses]> (estimatedFees e))
              (<[blocks := responses]> (estimatedFeesNumResponses e)).

(** Reachable shapes of the statics: six slots each, and untouched
    until the first call initialises them. *)
Definition wfEstimator (e : Estimator) : Prop :=
  length (estimatedFees e) = 6%nat /\
  length (estimatedFeesNumResponses e) = 6%nat /\
  (estimatedFeesInitialized e = true \/ e = initialEstimator).

(** A bucket state and the samples still to come fit the 64-bit
    arithmetic of the update. *)
Definition fits (st : Z * Z) (xs : list Z) : Prop :=
  0 <= fst st /\ 0 <= snd st /\ Forall (fun x => 0 <= x) xs /\
  fst st * snd st + sum xs < 2 ^ 64 /\
  snd st + Z.of_nat (length xs) < 2 ^ 64.

(** The fee table is non-increasing from target 1 to target 6. *)
Definition nonIncreasing (c : list Z) : Prop :=
  c !!! 1%nat >= c !!! 2%nat /\ c !!! 2%nat >= c !!! 3%nat /\
  c !!! 3%nat >= c !!! 4%nat /\ c !!! 4%nat >= c !!! 5%nat /\
  c !!! 5%nat >= c !!! 6%nat.

(** Number of requests sent to the login server so far. *)
Definition remoteCalls (w : World) : nat :=
  length (List.filter (fun ev => match ev with EvFetch => true | _ => false end) (trace w)).

(** [m] runs without undefined behaviour whenever the context is set,
    and leaves it set. *)
Definition defined {A} (m : M A) : Prop :=
  forall w, gContext w = true ->
    exists a w', m w = Some (a, w') /\ gContext w' = true.

(** The fee cache holds no estimate for target 6, and every document
    saved to it since the trace was [t0] was built by [feesJson]. *)
Definition feeCacheSound (t0 : list Event) (w : World) : Prop :=
  (forall doc, In (EvSave feeCachePath doc) (trace w) ->
     In (EvSave feeCachePath doc) t0 \/ exists fees, doc = feesJson fees) /\
  match feeCacheFile (disk w) with
  | Some (mkFile (Some doc) _) => EstimateFeesJson.confirmFees6 doc = 0
  | _ => True
  end.

Definition keeps (t0 : list Event) {A} (m : M A) : Prop :=
  forall w a w', feeCacheSound t0 w -> m w = Some (a, w') -> feeCacheSound t0 w'.

(** The URL the loop takes from an element of the fetched array. *)
Definition urlOf (stringJson : json) : string :=
  if json_is_string stringJson then json_string_value stringJson else "".

(** Does some record of the list carry this URL, up to case ? *)
Definition matchIn (items : list json) (url : string) : bool :=
  existsb (fun ssj => iequals (ServerScoreJson.serverUrl ssj) url) items.

(** The records the loop appends, given the records already there. *)
Fixpoint newRecords (items : list json) (entries : list json) : list json :=
  match entries with
  | [] => []
  | e :: rest =>
      if matchIn items (urlOf e) then newRecords items rest
      else ssjNew (urlOf e) :: newRecords (items ++ [ssjNew (urlOf e)]) rest
  end.

(** The score list found on disk by [serverScoresLoad]. *)
Definition storedScores (w : World) : json :=
  match serverScoresFile (disk w) with
  | Some (mkFile (Some j) _) => j
  | _ => emptyJson
  end.

(** How many times [load] has been entered: each entry starts with the
    call of [syncEnsureRepo], which nothing else makes. *)
Definition loadCalls {Repos Wallets : Type} (s : @State Repos Wallets) : nat :=
  length (List.filter (fun i => match i with InvSyncEnsureRepo _ => true | _ => false end)
                      (invocations s)).

(** ** Further notions *)

(** The same process at another time of day. *)
Definition atTime (t : Z) (w : World) : World :=
  mkWorld (gContext w) (isTestnet w) t (disk w) (writable w) (server w)
          (estimator w) (trace w).

(** The smallest of the entries 1..k of a fee table. *)
Fixpoint prefixMin (c : list Z) (k : nat) : Z :=
  match k with
  | O => c !!! 1%nat
  | S O => c !!! 1%nat
  | S k' => Z.min (prefixMin c k') (c !!! k)
  end.

(** No record of the list carries the URL of an earlier record, up to
    case. *)
Definition distinctUrls (items : list json) : Prop :=
  ForallOrdPairs
    (fun earlier later =>
       iequals (ServerScoreJson.serverUrl earlier) (ServerScoreJson.serverUrl later) = false)
    items.

(** The events of a trace that touch the server-score file. *)
Definition touchesScores (ev : Event) : bool :=
  match ev with
  | EvFileExists serverScoresPath | EvFileTime serverScoresPath
  | EvLoad serverScoresPath | EvSave serverScoresPath _ => true
  | _ => false
  end.

End Notions.

(* ===================================================================== *)
(** * The fee-estimate aggregator                                        *)
(* ===================================================================== *)

Module EstimatorFacts.
Import General Notions.

Lemma ABC_CHECK_ret (m : M Status) (w : World) : ABC_CHECK m (ret Ok) w = m w.
Proof.
  unfold ABC_CHECK, bind, ret. destruct (m w) as [[[|c] w']|]; reflexivity.
Qed.

Lemma in_uint64_true (z : Z) : 0 <= z < 2 ^ 64 -> in_uint64 z = true.
Proof.
  intros [H1 H2]. unfold in_uint64.
  apply andb_true_iff. split; [apply Z.leb_le | apply Z.ltb_lt]; assumption.
Qed.

Lemma generalEstimateFeesUpdate_unfold (blocks : nat) (feeBase : Z) (w : World) :
  gContext w = true ->
  (blocks < 6)%nat ->
  0 <= feeBase < 2 ^ 64 ->
  0 <= fst (bucket (initializeEstimator (estimator w)) blocks)
       * snd (bucket (initializeEstimator (estimator w)) blocks) + feeBase < 2 ^ 64 ->
  to_uint64 (snd (bucket (initializeEstimator (estimator w)) blocks) + 1) <> 0 ->
  generalEstimateFeesUpdate blocks feeBase w =
    let e' := nextEstimator blocks feeBase (estimator w) in
    if allBucketsPositive (estimatedFees e')
    then save feeCachePath (feesJson (estimatedFees e')) (setEstimator w e')
    else Some (Ok, setEstimator w e').
Proof.
  intros Hctx Hb Hfee Htot Hn.
  unfold generalEstimateFeesUpdate, bind, getEstimator, undefined.
  destruct (6 <=? blocks)%nat eqn:E; [apply Nat.leb_le in E; lia|].
  cbn [bucket fst snd] in Htot, Hn. cbv zeta.
  rewrite (in_uint64_true _ Hfee), (in_uint64_true _ Htot). cbn [andb negb].
  apply Z.eqb_neq in Hn. rewrite Hn.
  unfold putEstimator, nextEstimator. cbv zeta.
  destruct (allBucketsPositive _) eqn:Hall; [|reflexivity].
  unfold contextPath at 1. unfold setEstimator at 1. simpl gContext. rewrite Hctx.
  apply ABC_CHECK_ret.
Qed.


Lemma initialize_arrays (e : Estimator) :
  wfEstimator e ->
  estimatedFees (initializeEstimator e) = estimatedFees e /\
  estimatedFeesNumResponses (initializeEstimator e) = estimatedFeesNumResponses e.
Proof.
  intros (_ & _ & [Hi | ->]).
  - unfold initializeEstimator. rewrite Hi. auto.
  - split; reflexivity.
Qed.

Lemma to_uint64_small (z : Z) : 0 <= z < 2 ^ 64 -> to_uint64 z = z.
Proof. intros H. unfold to_uint64. apply Z.mod_small. exact H. Qed.

Lemma nextEstimator_wf (blocks : nat) (x : Z) (e : Estimator) :
  wfEstimator e -> wfEstimator (nextEstimator blocks x e).
Proof.
  intros Hwf. destruct (initialize_arrays e Hwf) as [Hf Hn].
  destruct Hwf as (Lf & Ln & _).
  unfold nextEstimator, wfEstimator. cbn [estimatedFees estimatedFeesNumResponses estimatedFeesInitialized].
  rewrite !length_insert, Hf, Hn. auto.
Qed.

Lemma nextEstimator_same (blocks : nat) (x : Z) (e : Estimator) :
  wfEstimator e -> (blocks < 6)%nat ->
  0 <= fst (bucket e blocks) * snd (bucket e blocks) + x < 2 ^ 64 ->
  0 <= snd (bucket e blocks) < 2 ^ 64 - 1 ->
  bucket (nextEstimator blocks x e) blocks = meanStep (bucket e blocks) x.
Proof.
  intros Hwf Hb Hsum Hcnt. destruct (initialize_arrays e Hwf) as [Hf Hn].
  destruct Hwf as (Lf & Ln & _).
  unfold bucket, nextEstimator, meanStep in *.
  cbn [estimatedFees estimatedFeesNumResponses fst snd] in *.
  rewrite Hf, Hn.
  rewrite !list_lookup_total_insert_eq by lia.
  rewrite !to_uint64_small by lia. reflexivity.
Qed.

Lemma nextEstimator_other (blocks b : nat) (x : Z) (e : Estimator) :
  wfEstimator e -> blocks <> b ->
  bucket (nextEstimator blocks x e) b = bucket e b.
Proof.
  intros Hwf Hb. destruct (initialize_arrays e Hwf) as [Hf Hn].
  unfold bucket, nextEstimator.
  cbn [estimatedFees estimatedFeesNumResponses].
  rewrite Hf, Hn, !list_lookup_total_insert_ne by assumption. reflexivity.
Qed.

(** What a save leaves behind. *)
Lemma save_spec (p : Path) (doc : json) (w : World) :
  exists st w',
    save p doc w = Some (st, w') /\
    gContext w' = gContext w /\ estimator w' = estimator w /\
    isTestnet w' = isTestnet w /\ server w' = server w /\
    writable w' = writable w /\ clock w' = clock w /\
    trace w' = EvSave p doc :: trace w /\
    (writable w p = true ->
       st = Ok /\ disk w' = writeFile (disk w) p (mkFile (Some doc) (clock w))) /\
    (writable w p = false -> st = Err ABC_CC_FileWriteError /\ disk w' = disk w).
Proof.
  unfold save. destruct (writable w p) eqn:E.
  - eexists _, _. split; [reflexivity|]. cbn. repeat split; auto; discriminate.
  - eexists _, _. split; [reflexivity|]. cbn. repeat split; auto; discriminate.
Qed.

Lemma sum_nonneg (xs : list Z) : Forall (fun x => 0 <= x) xs -> 0 <= sum xs.
Proof. induction 1; simpl; lia. Qed.

Lemma fits_step (st : Z * Z) (x : Z) (xs : list Z) :
  fits st (x :: xs) ->
  fits (meanStep st x) xs /\
  0 <= x < 2 ^ 64 /\
  0 <= fst st * snd st + x < 2 ^ 64 /\
  0 <= snd st < 2 ^ 64 - 1.
Proof.
  destruct st as [m n]. unfold fits, meanStep. cbn [fst snd sum fold_right length].
  intros (Hm & Hn & HF & Hs & Hl). inversion HF as [|? ? Hx HF']; subst.
  pose proof (sum_nonneg xs HF') as Hxs. fold (sum xs) in Hs.
  assert (Hmn : 0 <= m * n) by nia.
  assert (Hd : 0 <= (m * n + x) / (n + 1)) by (apply Z.div_pos; lia).
  assert (Hle : (m * n + x) / (n + 1) * (n + 1) <= m * n + x).
  { rewrite Z.mul_comm. apply Z.mul_div_le. lia. }
  repeat split; try assumption; try lia.
Qed.


Lemma samplesOf_cons_same (b : nat) (x : Z) (rest : list (nat * Z)) :
  samplesOf b ((b, x) :: rest) = x :: samplesOf b rest.
Proof. unfold samplesOf. cbn. rewrite Nat.eqb_refl. reflexivity. Qed.

Lemma samplesOf_cons_other (b b0 : nat) (x : Z) (rest : list (nat * Z)) :
  b0 <> b -> samplesOf b ((b0, x) :: rest) = samplesOf b rest.
Proof.
  intros H. unfold samplesOf. cbn.
  destruct (Nat.eqb b0 b) eqn:E; [apply Nat.eqb_eq in E; contradiction | reflexivity].
Qed.

(** One submission, when nothing overflows: the statics move to
    [nextEstimator], the context stays, and the only outside effect is
    the save, made exactly when the guard holds. *)
Lemma generalEstimateFeesUpdate_spec (blocks : nat) (feeBase : Z) (rest : list Z)
    (w : World) :
  gContext w = true ->
  wfEstimator (estimator w) ->
  (blocks < 6)%nat ->
  fits (bucket (estimator w) blocks) (feeBase :: rest) ->
  exists st w',
    generalEstimateFeesUpdate blocks feeBase w = Some (st, w') /\
    gContext w' = true /\
    estimator w' = nextEstimator blocks feeBase (estimator w) /\
    writable w' = writable w /\ clock w' = clock w /\
    (allBucketsPositive (estimatedFees (estimator w')) = true ->
       trace w' = EvSave feeCachePath (feesJson (estimatedFees (estimator w'))) :: trace w /\
       (writable w feeCachePath = true ->
          st = Ok /\
          disk w' = writeFile (disk w) feeCachePath
                      (mkFile (Some (feesJson (estimatedFees (estimator w')))) (clock w))) /\
       (writable w feeCachePath = false -> st = Err ABC_CC_FileWriteError /\ disk w' = disk w)) /\
    (allBucketsPositive (estimatedFees (estimator w')) = false ->
       st = Ok /\ trace w' = trace w /\ disk w' = disk w).
Proof.
  intros Hctx Hwf Hb Hfits.
  destruct (fits_step _ _ _ Hfits) as (_ & Hfee & Htot & Hcnt).
  destruct (initialize_arrays _ Hwf) as [Hif Hin].
  assert (Hbk : bucket (initializeEstimator (estimator w)) blocks
                = bucket (estimator w) blocks).
  { unfold bucket. rewrite Hif, Hin. reflexivity. }
  assert (Hn : to_uint64 (snd (bucket (initializeEstimator (estimator w)) blocks) + 1) <> 0).
  { rewrite Hbk, to_uint64_small by lia. lia. }
  rewrite <- Hbk in Htot.
  rewrite (generalEstimateFeesUpdate_unfold _ _ _ Hctx Hb Hfee Htot Hn). cbv zeta.
  set (e' := nextEstimator blocks feeBase (estimator w)).
  destruct (allBucketsPositive (estimatedFees e')) eqn:Hall.
  - destruct (save_spec feeCachePath (feesJson (estimatedFees e')) (setEstimator w e'))
      as (st & w' & Hs & Hc & He & _ & _ & Hwr & Hcl & Ht & Hok & Hfail).
    exists st, w'.
    cbn [setEstimator gContext estimator trace disk writable clock]
      in Hc, He, Ht, Hok, Hfail, Hwr, Hcl.
    rewrite He, Hall. repeat split; try congruence; try (apply Hok; assumption);
      try (apply Hfail; assumption).
  - exists Ok, (setEstimator w e').
    cbn [setEstimator gContext estimator trace disk writable clock]. rewrite Hall.
    repeat split; try congruence.
Qed.

(** Any sequence of submissions: every bucket ends where folding the
    update rule over its own samples leads, whatever went to the other
    buckets in between. *)
Lemma submitAll_buckets (samples : list (nat * Z)) :
  forall w : World,
    gContext w = true ->
    wfEstimator (estimator w) ->
    Forall (fun s => (fst s < 6)%nat) samples ->
    (forall b, (b < 6)%nat -> fits (bucket (estimator w) b) (samplesOf b samples)) ->
    exists w',
      submitAll samples w = Some (tt, w') /\
      gContext w' = true /\
      wfEstimator (estimator w') /\
      writable w' = writable w /\ clock w' = clock w /\
      forall b, (b < 6)%nat ->
        bucket (estimator w') b =
        fold_left meanStep (samplesOf b samples) (bucket (estimator w) b).
Proof.
  induction samples as [|[b0 x] rest IH]; intros w Hctx Hwf Hall Hfits.
  - exists w. split; [reflexivity|]. split; [assumption|]. split; [assumption|].
    split; [reflexivity|]. split; [reflexivity|]. intros b _. reflexivity.
  - inversion Hall as [|? ? Hb0 Hall']; subst. cbn [fst] in Hb0.
    pose proof (Hfits b0 Hb0) as Hf0. rewrite samplesOf_cons_same in Hf0.
    destruct (fits_step _ _ _ Hf0) as (Hf0' & _ & Hsum & Hcnt).
    destruct (generalEstimateFeesUpdate_spec b0 x _ w Hctx Hwf Hb0 Hf0)
      as (st & w1 & Hrun & Hctx1 & He1 & Hwr1 & Hcl1 & _).
    assert (Hwf1 : wfEstimator (estimator w1)).
    { rewrite He1. apply nextEstimator_wf. exact Hwf. }
    assert (Hb1 : forall b, (b < 6)%nat ->
              bucket (estimator w1) b =
              if Nat.eqb b0 b then meanStep (bucket (estimator w) b) x
              else bucket (estimator w) b).
    { intros b Hb. rewrite He1. destruct (Nat.eqb b0 b) eqn:E.
      - apply Nat.eqb_eq in E. subst b. apply nextEstimator_same; assumption.
      - apply Nat.eqb_neq in E. apply nextEstimator_other; assumption. }
    destruct (IH w1 Hctx1 Hwf1 Hall') as (w' & Hrest & Hctx' & Hwf' & Hwr' & Hcl' & Hbk).
    { intros b Hb. rewrite (Hb1 b Hb). destruct (Nat.eqb b0 b) eqn:E.
      - apply Nat.eqb_eq in E. subst b. exact Hf0'.
      - apply Nat.eqb_neq in E. specialize (Hfits b Hb).
        rewrite samplesOf_cons_other in Hfits by assumption. exact Hfits. }
    exists w'. split.
    { unfold submitAll in *. cbn [map run call fst snd]. unfold bind at 1.
      unfold bind at 1. rewrite Hrun. cbn. exact Hrest. }
    split; [assumption|]. split; [assumption|].
    split; [congruence|]. split; [congruence|].
    intros b Hb. rewrite (Hbk b Hb), (Hb1 b Hb). destruct (Nat.eqb b0 b) eqn:E.
    + apply Nat.eqb_eq in E. subst b. rewrite samplesOf_cons_same. reflexivity.
    + apply Nat.eqb_neq in E. rewrite samplesOf_cons_other by assumption. reflexivity.
Qed.

(** The truncated running mean against the true one: it never exceeds
    it, and the shortfall of the total stays within n(n-1)/2. *)
Lemma meanStep_fold_bounds (xs : list Z) :
  forall m n S : Z,
    0 <= m -> 0 <= n ->
    Forall (fun x => 0 <= x) xs ->
    n * m <= S -> 2 * (S - n * m) <= n * (n - 1) ->
    let st := fold_left meanStep xs (m, n) in
    snd st = n + Z.of_nat (length xs) /\
    0 <= fst st /\
    snd st * fst st <= S + sum xs /\
    2 * (S + sum xs - snd st * fst st) <= snd st * (snd st - 1).
Proof.
  induction xs as [|x xs IH]; intros m n S Hm Hn HF Hle Hgap.
  - cbn. repeat split; lia.
  - inversion HF as [|? ? Hx HF']; subst.
    cbn [fold_left sum fold_right length]. fold (sum xs).
    change (meanStep (m, n) x) with ((m * n + x) / (n + 1), n + 1).
    assert (Hmn : 0 <= m * n) by nia.
    pose proof (Z.div_mod (m * n + x) (n + 1) ltac:(lia)) as Hdm.
    pose proof (Z.mod_pos_bound (m * n + x) (n + 1) ltac:(lia)) as Hmod.
    assert (Hd : 0 <= (m * n + x) / (n + 1)) by (apply Z.div_pos; lia).
    specialize (IH ((m * n + x) / (n + 1)) (n + 1) (S + x) Hd ltac:(lia) HF'
                  ltac:(nia) ltac:(nia)).
    cbv zeta in IH.
    destruct (fold_left meanStep xs ((m * n + x) / (n + 1), n + 1)) as [m' n'].
    cbn [fst snd] in *. lia.
Qed.


Lemma samplesOf_app (b : nat) (l1 l2 : list (nat * Z)) :
  samplesOf b (l1 ++ l2) = samplesOf b l1 ++ samplesOf b l2.
Proof. unfold samplesOf. rewrite List.filter_app, map_app. reflexivity. Qed.

Lemma sum_app (xs ys : list Z) : sum (xs ++ ys) = sum xs + sum ys.
Proof. induction xs as [|x xs IH]; cbn; [reflexivity|]. fold (sum (xs ++ ys)) (sum xs). lia. Qed.

Lemma samplesOf_bounds (b : nat) (samples : list (nat * Z)) :
  Forall (fun s => (fst s < 6)%nat /\ 0 <= snd s) samples ->
  Forall (fun x => 0 <= x) (samplesOf b samples) /\
  sum (samplesOf b samples) <= sum (map snd samples) /\
  (length (samplesOf b samples) <= length samples)%nat.
Proof.
  induction 1 as [|[b0 x] rest [Hb0 Hx] HF (IH1 & IH2 & IH3)].
  - cbn. repeat split; [constructor | lia | lia].
  - cbn [fst snd] in *. destruct (Nat.eq_dec b0 b) as [->|Hne].
    + rewrite samplesOf_cons_same. cbn [map sum fold_right length snd].
      fold (sum (samplesOf b rest)) (sum (map snd rest)).
      repeat split; [constructor; assumption | lia | lia].
    + rewrite samplesOf_cons_other by assumption. cbn [map sum fold_right length snd].
      fold (sum (map snd rest)). repeat split; [assumption | lia | lia].
Qed.

Lemma samples_in_range (samples : list (nat * Z)) :
  Forall (fun s => (fst s < 6)%nat /\ 0 <= snd s) samples ->
  Forall (fun s => (fst s < 6)%nat) samples.
Proof. induction 1 as [|s rest [H _] _ IH]; constructor; assumption. Qed.

Lemma initial_fits (b : nat) (samples : list (nat * Z)) :
  Forall (fun s => (fst s < 6)%nat /\ 0 <= snd s) samples ->
  sum (map snd samples) < 2 ^ 53 ->
  Z.of_nat (length samples) < 2 ^ 64 ->
  fits (0, 0) (samplesOf b samples).
Proof.
  intros HF Hs Hl. destruct (samplesOf_bounds b samples HF) as (H1 & H2 & H3).
  unfold fits. cbn [fst snd]. repeat split; try assumption; lia.
Qed.

Lemma initial_bucket (b : nat) : (b < 6)%nat -> bucket initialEstimator b = (0, 0).
Proof. intros Hb. do 6 (destruct b as [|b]; [reflexivity|]). lia. Qed.

Lemma initial_wf : wfEstimator initialEstimator.
Proof. repeat split. right. reflexivity. Qed.

Lemma allBucketsPositive_iff (fees : list Z) :
  allBucketsPositive fees = true <->
  forall b, (1 <= b <= 5)%nat -> 0 < fees !!! b.
Proof.
  unfold allBucketsPositive. rewrite !andb_true_iff, !Z.ltb_lt. split.
  - intros ((((H1 & H2) & H3) & H4) & H5) b Hb.
    assert (b = 1 \/ b = 2 \/ b = 3 \/ b = 4 \/ b = 5)%nat as Hc by lia.
    destruct Hc as [->|[->|[->|[->| ->]]]]; assumption.
  - intros H. repeat split; apply H; lia.
Qed.

(** From a fresh process: the state of every bucket after a sequence of
    submissions. *)
Lemma submitAll_fresh (samples : list (nat * Z)) (w : World) :
  gContext w = true ->
  estimator w = initialEstimator ->
  Forall (fun s => (fst s < 6)%nat /\ 0 <= snd s) samples ->
  sum (map snd samples) < 2 ^ 53 ->
  Z.of_nat (length samples) < 2 ^ 64 ->
  exists w',
    submitAll samples w = Some (tt, w') /\
    gContext w' = true /\ wfEstimator (estimator w') /\
    writable w' = writable w /\ clock w' = clock w /\
    forall b, (b < 6)%nat ->
      bucket (estimator w') b = runningMean (samplesOf b samples).
Proof.
  intros Hctx He HF Hs Hl.
  destruct (submitAll_buckets samples w Hctx) as (w' & Hrun & Hc & Hwf & Hwr & Hcl & Hb).
  - rewrite He. apply initial_wf.
  - apply samples_in_range. exact HF.
  - intros b Hb'. rewrite He, initial_bucket by assumption. apply initial_fits; assumption.
  - exists w'. repeat split; try assumption; try apply Hwf.
    intros b Hb'. rewrite (Hb b Hb'), He, initial_bucket by assumption. reflexivity.
Qed.

Lemma runningMean_bounds (xs : list Z) :
  Forall (fun x => 0 <= x) xs ->
  let st := runningMean xs in
  snd st = Z.of_nat (length xs) /\
  0 <= fst st /\
  snd st * fst st <= sum xs /\
  2 * sum xs <= 2 * snd st * fst st + snd st * (snd st - 1).
Proof.
  intros HF.
  pose proof (meanStep_fold_bounds xs 0 0 0 ltac:(lia) ltac:(lia) HF ltac:(lia) ltac:(lia)) as H.
  cbv zeta in *. fold (runningMean xs) in H. destruct H as (H1 & H2 & H3 & H4).
  repeat split; lia.
Qed.

(** C1 (as amended).  From process start, after any sequence of
    submissions to the buckets, the mean stored for bucket [b] is what
    the update rule newMean = (oldMean * oldCount + sample) /
    (oldCount + 1), with integer division, gives on the samples of [b]
    alone in the order they came, whatever went to other buckets in
    between; the count is their number N; and the stored mean is at most
    their arithmetic mean and short of it by at most (N - 1) / 2. *)
Theorem estimate_running_mean (samples : list (nat * Z)) (w : World) (b : nat) :
  gContext w = true ->
  estimator w = initialEstimator ->
  Forall (fun s => (fst s < 6)%nat /\ 0 <= snd s) samples ->
  sum (map snd samples) < 2 ^ 53 ->
  Z.of_nat (length samples) < 2 ^ 64 ->
  (b < 6)%nat ->
  exists w',
    submitAll samples w = Some (tt, w') /\
    let xs := samplesOf b samples in
    let mean := estimatedFees (estimator w') !!! b in
    let n := estimatedFeesNumResponses (estimator w') !!! b in
    (mean, n) = runningMean xs /\
    n = Z.of_nat (length xs) /\
    n * mean <= sum xs /\
    2 * sum xs <= 2 * n * mean + n * (n - 1).
Proof.
  intros Hctx He HF Hs Hl Hb.
  destruct (submitAll_fresh samples w Hctx He HF Hs Hl) as (w' & Hrun & _ & _ & _ & _ & Hbk).
  exists w'. split; [exact Hrun|]. cbv zeta.
  specialize (Hbk b Hb). unfold bucket in Hbk.
  destruct (samplesOf_bounds b samples HF) as (Hnn & _ & _).
  pose proof (runningMean_bounds _ Hnn) as Hbd. cbv zeta in Hbd.
  rewrite <- Hbk in Hbd. cbn [fst snd] in Hbd.
  destruct Hbd as (H1 & _ & H3 & H4). auto.
Qed.

Lemma estimate_running_mean_witness :
  exists w',
    submitAll [(3%nat, 10); (1%nat, 7); (3%nat, 20); (5%nat, 2); (3%nat, 30)]
              (freshWorld false 0 None (fun _ => true)) = Some (tt, w') /\
    estimatedFees (estimator w') !!! 3%nat = 20.
Proof.
  destruct (estimate_running_mean
              [(3%nat, 10); (1%nat, 7); (3%nat, 20); (5%nat, 2); (3%nat, 30)]
              (freshWorld false 0 None (fun _ => true)) 3)
    as (w' & Hrun & Hmean & _).
  - reflexivity.
  - reflexivity.
  - repeat constructor; cbn; lia.
  - vm_compute. reflexivity.
  - vm_compute. reflexivity.
  - lia.
  - exists w'. split; [exact Hrun|]. cbv zeta in Hmean.
    change (runningMean _) with (20, 3) in Hmean. congruence.
Defined.

(** C1 as stated fails: the samples 1, 2, 3 have arithmetic mean 2, yet
    bucket 3 ends at 1 when they come in this order, and at 2 when they
    come as 3, 1, 2. *)
Lemma running_mean_not_arithmetic_mean :
  exists w1 w2,
    submitAll [(3%nat, 1); (3%nat, 2); (3%nat, 3)]
              (freshWorld false 0 None (fun _ => true)) = Some (tt, w1) /\
    submitAll [(3%nat, 3); (3%nat, 1); (3%nat, 2)]
              (freshWorld false 0 None (fun _ => true)) = Some (tt, w2) /\
    sum [1; 2; 3] = 3 * 2 /\
    estimatedFees (estimator w1) !!! 3%nat = 1 /\
    estimatedFees (estimator w2) !!! 3%nat = 2.
Proof.
  eexists _, _. split; [vm_compute; reflexivity|].
  split; [vm_compute; reflexivity|]. repeat split.
Qed.


Lemma runningMean_nil_state (b : nat) (samples : list (nat * Z)) :
  samplesOf b samples = [] -> runningMean (samplesOf b samples) = (0, 0).
Proof. intros ->. reflexivity. Qed.

(** C2 (as amended).  From process start, after any history of
    submissions, one more submission saves the fee-estimate document to
    the fee cache file if and only if, after the in-memory update, the
    stored mean of every one of the 5 buckets is positive.  When it
    saves, every bucket has received a sample, the document holds the
    latest means and, the file being writable, becomes the file's
    content; when it does not, nothing is saved and the disk is as
    before. *)
Theorem estimate_save_gate (history : list (nat * Z)) (blocks : nat) (feeBase : Z)
    (w : World) :
  gContext w = true ->
  estimator w = initialEstimator ->
  Forall (fun s => (fst s < 6)%nat /\ 0 <= snd s) (history ++ [(blocks, feeBase)]) ->
  sum (map snd (history ++ [(blocks, feeBase)])) < 2 ^ 53 ->
  Z.of_nat (length (history ++ [(blocks, feeBase)])) < 2 ^ 64 ->
  exists w1 st w2,
    submitAll history w = Some (tt, w1) /\
    generalEstimateFeesUpdate blocks feeBase w1 = Some (st, w2) /\
    let fees := estimatedFees (estimator w2) in
    ((forall b, (1 <= b <= 5)%nat -> 0 < fees !!! b) ->
       trace w2 = EvSave feeCachePath (feesJson fees) :: trace w1 /\
       (forall b, (1 <= b <= 5)%nat ->
          samplesOf b (history ++ [(blocks, feeBase)]) <> []) /\
       (writable w feeCachePath = true ->
          st = Ok /\
          feeCacheFile (disk w2) = Some (mkFile (Some (feesJson fees)) (clock w)))) /\
    (~ (forall b, (1 <= b <= 5)%nat -> 0 < fees !!! b) ->
       st = Ok /\ trace w2 = trace w1 /\ disk w2 = disk w1).
Proof.
  intros Hctx He HF Hs Hl.
  apply Forall_app in HF as HF2. destruct HF2 as [HFh HFn].
  inversion HFn as [|? ? [Hblocks Hfee] _]; subst. cbn [fst snd] in Hblocks, Hfee.
  rewrite map_app, sum_app in Hs. rewrite length_app, Nat2Z.inj_add in Hl.
  cbn [map sum fold_right length snd] in Hs, Hl.
  pose proof (samplesOf_bounds blocks history HFh) as (Hnn & Hsum & Hlen).
  pose proof (sum_nonneg _ Hnn) as Hpos.
  destruct (submitAll_fresh history w Hctx He HFh ltac:(lia) ltac:(lia))
    as (w1 & Hrun & Hctx1 & Hwf1 & Hwr1 & Hcl1 & Hbk).
  pose proof (runningMean_bounds _ Hnn) as (Hcount & Hmean & Htot & _).
  cbv zeta in Hcount, Hmean, Htot.
  rewrite <- (Hbk blocks Hblocks) in Hcount, Hmean, Htot.
  assert (Hfits : fits (bucket (estimator w1) blocks) [feeBase]).
  { unfold fits. cbn [sum fold_right length].
    split; [lia|]. split; [lia|]. split; [repeat constructor; lia|].
    split; [nia | lia]. }
  destruct (generalEstimateFeesUpdate_spec blocks feeBase [] w1 Hctx1 Hwf1 Hblocks Hfits)
    as (st & w2 & Hupd & Hctx2 & He2 & Hwr2 & Hcl2 & Hsave & Hskip).
  exists w1, st, w2. split; [exact Hrun|]. split; [exact Hupd|]. cbv zeta.
  rewrite <- allBucketsPositive_iff. split.
  - intros Hall. destruct (Hsave Hall) as (Ht & Hok & _). split; [exact Ht|]. split.
    + intros b Hb Hnil. apply allBucketsPositive_iff with (b := b) in Hall; [|exact Hb].
      rewrite samplesOf_app in Hnil. apply app_eq_nil in Hnil as [Hnil1 Hnil2].
      assert (Hne : blocks <> b).
      { intros ->. rewrite samplesOf_cons_same in Hnil2. discriminate. }
      assert (Hz : bucket (estimator w2) b = (0, 0)).
      { rewrite He2, nextEstimator_other by assumption.
        rewrite Hbk by lia. apply runningMean_nil_state. exact Hnil1. }
      unfold bucket in Hz. injection Hz as Hz _. lia.
    + intros Hw. rewrite <- Hwr1 in Hw. destruct (Hok Hw) as [-> Hd].
      split; [reflexivity|]. rewrite Hd, Hcl1. reflexivity.
  - intros Hnot. apply Hskip. destruct (allBucketsPositive _); [contradiction|reflexivity].
Qed.

Lemma estimate_save_gate_witness :
  exists w1 st w2,
    submitAll [(1%nat, 5); (2%nat, 4); (3%nat, 3); (4%nat, 2)]
              (freshWorld false 7 None (fun _ => true)) = Some (tt, w1) /\
    generalEstimateFeesUpdate 5 1 w1 = Some (st, w2) /\
    trace w2 = EvSave feeCachePath (feesJson (estimatedFees (estimator w2))) :: trace w1 /\
    feeCacheFile (disk w2) =
      Some (mkFile (Some (feesJson (estimatedFees (estimator w2)))) 7).
Proof.
  destruct (estimate_save_gate
              [(1%nat, 5); (2%nat, 4); (3%nat, 3); (4%nat, 2)] 5 1
              (freshWorld false 7 None (fun _ => true)))
    as (w1 & st & w2 & Hrun & Hupd & Hsave & _).
  - reflexivity.
  - reflexivity.
  - repeat constructor; cbn; lia.
  - vm_compute. reflexivity.
  - vm_compute. reflexivity.
  - exists w1, st, w2. split; [exact Hrun|]. split; [exact Hupd|].
    assert (Hw1 : w1 = setEstimator (freshWorld false 7 None (fun _ => true))
                         (mkEstimator true [0; 5; 4; 3; 2; 0] [0; 1; 1; 1; 1; 0])).
    { vm_compute in Hrun. injection Hrun as <-. reflexivity. }
    subst w1. vm_compute in Hupd. injection Hupd as <- <-.
    split; reflexivity.
Defined.

(** C2 as stated fails.  First sequence: every bucket has received a
    sample, the one for bucket 1 being 0, and nothing is saved.  Second
    sequence: the fifth submission completes the buckets and saves; the
    sixth, a 0 to bucket 1, brings that mean to 0 and is not saved. *)
Lemma sampled_buckets_without_save :
  exists w1 w2,
    submitAll [(1%nat, 0); (2%nat, 1); (3%nat, 1); (4%nat, 1); (5%nat, 1)]
              (freshWorld false 7 None (fun _ => true)) = Some (tt, w1) /\
    (forall b, (1 <= b <= 5)%nat ->
       samplesOf b [(1%nat, 0); (2%nat, 1); (3%nat, 1); (4%nat, 1); (5%nat, 1)] <> []) /\
    trace w1 = [] /\ feeCacheFile (disk w1) = None /\
    submitAll [(1%nat, 1); (2%nat, 1); (3%nat, 1); (4%nat, 1); (5%nat, 1); (1%nat, 0)]
              (freshWorld false 7 None (fun _ => true)) = Some (tt, w2) /\
    estimatedFees (estimator w2) = [0; 0; 1; 1; 1; 1] /\
    trace w2 = [EvSave feeCachePath (feesJson [0; 1; 1; 1; 1; 1])].
Proof.
  eexists _, _. split; [vm_compute; reflexivity|]. split.
  { intros b Hb.
    assert (b = 1 \/ b = 2 \/ b = 3 \/ b = 4 \/ b = 5)%nat as Hc by lia.
    destruct Hc as [->|[->|[->|[->| ->]]]]; discriminate. }
  split; [reflexivity|]. split; [reflexivity|].
  split; [vm_compute; reflexivity|]. split; reflexivity.
Qed.

End EstimatorFacts.

(* ===================================================================== *)
(** * The configuration cache                                            *)
(* ===================================================================== *)

Module CacheFacts.
Import General Notions.
Local Open Scope world_scope.

(** ** Running to completion with the context set *)

Lemma defined_ret {A} (a : A) : defined (ret a).
Proof. intros w H. exists a, w. auto. Qed.

Lemma defined_bind {A B} (m : M A) (k : A -> M B) :
  defined m -> (forall a, defined (k a)) -> defined (bind m k).
Proof.
  intros Hm Hk w H. destruct (Hm w H) as (a & w1 & E1 & H1).
  destruct (Hk a w1 H1) as (b & w2 & E2 & H2).
  exists b, w2. unfold bind. rewrite E1. auto.
Qed.

Lemma defined_contextPath (p : Path) : defined (contextPath p).
Proof. intros w H. exists p, w. unfold contextPath. rewrite H. auto. Qed.

Lemma defined_contextUnset : defined contextUnset.
Proof. intros w H. eexists _, _. split; [reflexivity | exact H]. Qed.

Lemma defined_time : defined time.
Proof. intros w H. eexists _, _. split; [reflexivity | exact H]. Qed.

Lemma defined_testnet : defined testnet.
Proof. intros w H. eexists _, _. split; [reflexivity | exact H]. Qed.

Lemma defined_fileExists (p : Path) : defined (fileExists p).
Proof. intros w H. eexists _, _. split; [reflexivity | exact H]. Qed.

Lemma defined_fileTime (p : Path) : defined (fileTime p).
Proof. intros w H. eexists _, _. split; [reflexivity | exact H]. Qed.

Lemma defined_load (p : Path) (out : json) : defined (load p out).
Proof.
  intros w H. unfold load.
  destruct (readFile (disk w) p) as [[[j|] t]|]; eexists _, _; (split; [reflexivity | exact H]).
Qed.

Lemma defined_save (p : Path) (doc : json) : defined (save p doc).
Proof.
  intros w H. unfold save.
  destruct (writable w p); eexists _, _; (split; [reflexivity | exact H]).
Qed.

Lemma defined_loginServerGetGeneral : defined loginServerGetGeneral.
Proof.
  intros w H. unfold loginServerGetGeneral.
  destruct (server w); eexists _, _; (split; [reflexivity | exact H]).
Qed.

Lemma defined_log (s : Status) : defined (log s).
Proof. intros w H. destruct s; eexists _, _; (split; [reflexivity | exact H]). Qed.

Lemma defined_ABC_CHECK (e rest : M Status) :
  defined e -> defined rest -> defined (ABC_CHECK e rest).
Proof.
  intros He Hr. unfold ABC_CHECK. apply defined_bind; [exact He|].
  intros [|c]; [exact Hr | apply defined_ret].
Qed.

Create HintDb defined discriminated.
#[local] Hint Resolve defined_ret defined_contextPath defined_contextUnset
  defined_time defined_testnet defined_fileExists defined_fileTime defined_load
  defined_save defined_loginServerGetGeneral defined_log : defined.

Ltac defined_step :=
  first
    [ apply defined_bind; [| intros ?]
    | apply defined_ABC_CHECK
    | solve [auto with defined]
    | match goal with
      | |- defined (match ?x with _ => _ end) => destruct x
      | |- defined (if ?b then _ else _) => destruct b
      | |- defined (let '(_, _) := ?x in _) => destruct x
      end ].

Ltac defined_auto := repeat defined_step.

Lemma defined_serverScoresLoad : defined serverScoresLoad.
Proof. unfold serverScoresLoad. defined_auto. Qed.

Lemma defined_needsUpdate (p : Path) (age : Z) : defined (needsUpdate p age).
Proof. unfold needsUpdate. defined_auto. Qed.

Lemma defined_generalUpdate : defined generalUpdate.
Proof.
  pose proof defined_serverScoresLoad. pose proof defined_needsUpdate.
  unfold generalUpdate. defined_auto.
Qed.

Lemma defined_generalLoad : defined generalLoad.
Proof. pose proof defined_generalUpdate. unfold generalLoad. defined_auto. Qed.

Lemma defined_estimateFeesLoad : defined estimateFeesLoad.
Proof. unfold estimateFeesLoad. defined_auto. Qed.


(** ** Reads with the context unset *)

Lemma generalLoad_unset (w : World) :
  gContext w = false -> generalLoad w = Some (emptyJson, w).
Proof. intros H. unfold generalLoad, bind, contextUnset, ret. rewrite H. reflexivity. Qed.

Lemma serverScoresLoad_unset (w : World) :
  gContext w = false -> serverScoresLoad w = Some (emptyJson, w).
Proof. intros H. unfold serverScoresLoad, bind, contextUnset, ret. rewrite H. reflexivity. Qed.

Lemma estimateFeesLoad_unset (w : World) :
  gContext w = false -> estimateFeesLoad w = Some (emptyJson, w).
Proof. intros H. unfold estimateFeesLoad, bind, contextUnset, ret. rewrite H. reflexivity. Qed.

(** C10.  With the global context unset, generalLoad, serverScoresLoad
    and estimateFeesLoad each return the empty document and leave the
    world as it was: no file is examined, read or written, no request is
    sent and no error is logged. *)
Theorem loads_without_context (w : World) :
  gContext w = false ->
  generalLoad w = Some (emptyJson, w) /\
  serverScoresLoad w = Some (emptyJson, w) /\
  estimateFeesLoad w = Some (emptyJson, w).
Proof.
  intros H. split; [apply generalLoad_unset; exact H|].
  split; [apply serverScoresLoad_unset | apply estimateFeesLoad_unset]; exact H.
Qed.

Lemma loads_without_context_witness :
  let w := mkWorld false false 50
             (mkDisk (Some (mkFile (Some (JObject [])) 10)) None None)
             (fun _ => true) (Some (JObject [])) initialEstimator [] in
  generalLoad w = Some (emptyJson, w) /\
  serverScoresLoad w = Some (emptyJson, w) /\
  estimateFeesLoad w = Some (emptyJson, w).
Proof.
  intros w. apply (loads_without_context w). reflexivity.
Defined.

(** ** The fee table *)

Lemma fixFees_nonIncreasing (c : list Z) :
  length c = 7%nat -> nonIncreasing (fixFees c).
Proof.
  intros Hlen.
  do 7 (destruct c as [|? c]; [discriminate Hlen|]).
  destruct c; [|discriminate Hlen].
  unfold fixFees, nonIncreasing. cbn.
  repeat match goal with
         | |- context [?a >? ?b] =>
             is_var a; is_var b; destruct (Z.gtb_spec a b); cbn
         end; lia.
Qed.

Lemma chooseFees_length (feeJson est : json) : length (chooseFees feeJson est) = 7%nat.
Proof. reflexivity. Qed.

Lemma generalLoad_total (w : World) : exists g w', generalLoad w = Some (g, w').
Proof.
  destruct (gContext w) eqn:E.
  - destruct (defined_generalLoad w E) as (g & w' & H & _). eauto.
  - pose proof (generalLoad_unset w E) as H. eauto.
Qed.

Lemma estimateFeesLoad_total (w : World) : exists g w', estimateFeesLoad w = Some (g, w').
Proof.
  destruct (gContext w) eqn:E.
  - destruct (defined_estimateFeesLoad w E) as (g & w' & H & _). eauto.
  - pose proof (estimateFeesLoad_unset w E) as H. eauto.
Qed.

(** What [generalBitcoinFeeInfo] returns, in terms of the two documents
    it loads. *)
Lemma generalBitcoinFeeInfo_unfold (w : World) :
  exists generalJson w1 estimateFeesJson w2,
    generalLoad w = Some (generalJson, w1) /\
    estimateFeesLoad w1 = Some (estimateFeesJson, w2) /\
    generalBitcoinFeeInfo w =
      Some (bitcoinFeeInfo (GeneralJson.bitcoinFees generalJson) estimateFeesJson, w2).
Proof.
  destruct (generalLoad_total w) as (g & w1 & H1).
  destruct (estimateFeesLoad_total w1) as (e & w2 & H2).
  exists g, w1, e, w2. split; [exact H1|]. split; [exact H2|].
  unfold generalBitcoinFeeInfo, bind. rewrite H1, H2. reflexivity.
Qed.

(** C3.  Whatever the cached fee table and the live estimates hold, and
    in every state of the process, [generalBitcoinFeeInfo] returns, and
    the table it returns satisfies confirmFees[1] >= confirmFees[2] >=
    ... >= confirmFees[6]. *)
Theorem fee_table_non_increasing (w : World) :
  exists out w',
    generalBitcoinFeeInfo w = Some (out, w') /\
    confirmFees out !!! 1%nat >= confirmFees out !!! 2%nat /\
    confirmFees out !!! 2%nat >= confirmFees out !!! 3%nat /\
    confirmFees out !!! 3%nat >= confirmFees out !!! 4%nat /\
    confirmFees out !!! 4%nat >= confirmFees out !!! 5%nat /\
    confirmFees out !!! 5%nat >= confirmFees out !!! 6%nat.
Proof.
  destruct (generalBitcoinFeeInfo_unfold w) as (g & w1 & e & w2 & _ & _ & H).
  eexists _, _. split; [exact H|].
  apply (fixFees_nonIncreasing (chooseFees (GeneralJson.bitcoinFees g) e)).
  apply chooseFees_length.
Qed.


(** ** What reaches the fee cache file *)

Lemma feesJson_members (fees : list Z) :
  feesJson fees =
  JObject [ ("confirmFees1", JInteger (fees !!! 1%nat));
            ("confirmFees2", JInteger (fees !!! 2%nat));
            ("confirmFees3", JInteger (fees !!! 3%nat));
            ("confirmFees4", JInteger (fees !!! 4%nat));
            ("confirmFees5", JInteger (fees !!! 5%nat)) ].
Proof. reflexivity. Qed.

Lemma feesJson_confirmFees6 (fees : list Z) :
  EstimateFeesJson.confirmFees6 (feesJson fees) = 0.
Proof. reflexivity. Qed.

Section FeeCache.

Variable t0 : list Event.

#[local] Abbreviation feeCacheSound := (feeCacheSound t0).
#[local] Abbreviation keeps := (keeps t0).

Lemma sound_emit (w : World) (ev : Event) :
  (forall doc, ev = EvSave feeCachePath doc -> exists fees, doc = feesJson fees) ->
  feeCacheSound w -> feeCacheSound (emit w ev).
Proof.
  intros Hev [Ht Hd]. split; [|exact Hd].
  intros doc [E|Hin]; [right; apply Hev; exact E | apply Ht; exact Hin].
Qed.

Lemma sound_write (w : World) (p : Path) (doc : json) (t : Z) :
  (p = feeCachePath -> exists fees, doc = feesJson fees) ->
  feeCacheSound w ->
  feeCacheSound (setDisk w (writeFile (disk w) p (mkFile (Some doc) t))).
Proof.
  intros Hp [Ht Hd]. split; [exact Ht|].
  destruct p; cbn; try exact Hd.
  destruct (Hp eq_refl) as [fees ->]. apply feesJson_confirmFees6.
Qed.

Lemma keeps_ret {A} (a : A) : keeps (ret a).
Proof. intros w a' w' H E. injection E as <- <-. exact H. Qed.

Lemma keeps_undefined {A} : keeps (@undefined A).
Proof. intros w a w' _ E. discriminate E. Qed.

Lemma keeps_bind {A B} (m : M A) (k : A -> M B) :
  keeps m -> (forall a, keeps (k a)) -> keeps (bind m k).
Proof.
  intros Hm Hk w b w' H E. unfold bind in E.
  destruct (m w) as [[a w1]|] eqn:E1; [|discriminate E].
  exact (Hk a w1 b w' (Hm w a w1 H E1) E).
Qed.

(** The path comes back as asked for. *)
Lemma keeps_bind_contextPath {B} (p : Path) (k : Path -> M B) :
  keeps (k p) -> keeps (bind (contextPath p) k).
Proof.
  intros Hk w b w' H E. unfold bind, contextPath in E.
  destruct (gContext w); [|discriminate E]. exact (Hk w b w' H E).
Qed.

Lemma keeps_pure {A} (m : M A) :
  (forall w a w', m w = Some (a, w') -> w' = w) -> keeps m.
Proof. intros Hm w a w' H E. rewrite (Hm w a w' E). exact H. Qed.

Lemma keeps_contextUnset : keeps contextUnset.
Proof. apply keeps_pure. intros w a w' E. injection E as _ <-. reflexivity. Qed.

Lemma keeps_time : keeps time.
Proof. apply keeps_pure. intros w a w' E. injection E as _ <-. reflexivity. Qed.

Lemma keeps_testnet : keeps testnet.
Proof. apply keeps_pure. intros w a w' E. injection E as _ <-. reflexivity. Qed.

Lemma keeps_getEstimator : keeps getEstimator.
Proof. apply keeps_pure. intros w a w' E. injection E as _ <-. reflexivity. Qed.

Lemma keeps_putEstimator (e : Estimator) : keeps (putEstimator e).
Proof. intros w a w' H E. injection E as _ <-. exact H. Qed.

Lemma keeps_fileExists (p : Path) : keeps (fileExists p).
Proof.
  intros w a w' H E. injection E as _ <-. apply sound_emit; [discriminate | exact H].
Qed.

Lemma keeps_fileTime (p : Path) : keeps (fileTime p).
Proof.
  intros w a w' H E. injection E as _ <-. apply sound_emit; [discriminate | exact H].
Qed.

Lemma keeps_load (p : Path) (out : json) : keeps (load p out).
Proof.
  intros w a w' H E. unfold load in E.
  destruct (readFile (disk w) p) as [[[j|] t]|]; injection E as _ <-;
    (apply sound_emit; [discriminate | exact H]).
Qed.

Lemma keeps_loginServerGetGeneral : keeps loginServerGetGeneral.
Proof.
  intros w a w' H E. unfold loginServerGetGeneral in E.
  destruct (server w); injection E as _ <-;
    (apply sound_emit; [discriminate | exact H]).
Qed.

Lemma keeps_log (s : Status) : keeps (log s).
Proof.
  intros w a w' H E. destruct s; inversion E; subst; [exact H|].
  apply sound_emit; [discriminate | exact H].
Qed.

Lemma keeps_save (p : Path) (doc : json) :
  (p = feeCachePath -> exists fees, doc = feesJson fees) -> keeps (save p doc).
Proof.
  intros Hp w a w' H E. unfold save in E.
  assert (Hs : feeCacheSound (emit w (EvSave p doc))).
  { apply sound_emit; [|exact H]. intros d Hd. injection Hd as -> ->. apply Hp. reflexivity. }
  destruct (writable w p); injection E as _ <-; [|exact Hs].
  apply (sound_write (emit w (EvSave p doc))); assumption.
Qed.

Lemma keeps_ABC_CHECK (e rest : M Status) :
  keeps e -> keeps rest -> keeps (ABC_CHECK e rest).
Proof.
  intros He Hr. unfold ABC_CHECK. apply keeps_bind; [exact He|].
  intros [|c]; [exact Hr | apply keeps_ret].
Qed.

Create HintDb keeps discriminated.
#[local] Hint Resolve keeps_ret keeps_undefined keeps_contextUnset keeps_time
  keeps_testnet keeps_getEstimator keeps_putEstimator keeps_fileExists
  keeps_fileTime keeps_load keeps_loginServerGetGeneral keeps_log : keeps.

Ltac keeps_step :=
  first
    [ apply keeps_bind_contextPath
    | apply keeps_bind; [| intros ?]
    | apply keeps_ABC_CHECK
    | solve [auto with keeps]
    | apply keeps_save; first [discriminate | intros _; eexists; reflexivity]
    | progress cbv zeta
    | match goal with
      | |- keeps (match ?x with _ => _ end) => destruct x
      | |- keeps (if ?b then _ else _) => destruct b
      end ].

Ltac keeps_auto := repeat keeps_step.

Lemma keeps_serverScoresLoad : keeps serverScoresLoad.
Proof. unfold serverScoresLoad. keeps_auto. Qed.

Lemma keeps_needsUpdate (p : Path) (age : Z) : keeps (needsUpdate p age).
Proof. unfold needsUpdate. keeps_auto. Qed.

Lemma keeps_generalUpdate : keeps generalUpdate.
Proof.
  pose proof keeps_serverScoresLoad. pose proof keeps_needsUpdate.
  unfold generalUpdate. keeps_auto.
Qed.

Lemma keeps_generalLoad : keeps generalLoad.
Proof. pose proof keeps_generalUpdate. unfold generalLoad. keeps_auto. Qed.

Lemma keeps_estimateFeesLoad : keeps estimateFeesLoad.
Proof. unfold estimateFeesLoad. keeps_auto. Qed.

Lemma keeps_generalEstimateFeesNeedUpdate : keeps generalEstimateFeesNeedUpdate.
Proof. pose proof keeps_needsUpdate. unfold generalEstimateFeesNeedUpdate. keeps_auto. Qed.

Lemma keeps_generalEstimateFeesUpdate (blocks : nat) (feeBase : Z) :
  keeps (generalEstimateFeesUpdate blocks feeBase).
Proof. unfold generalEstimateFeesUpdate. keeps_auto. Qed.

Lemma keeps_generalBitcoinFeeInfo : keeps generalBitcoinFeeInfo.
Proof.
  pose proof keeps_generalLoad. pose proof keeps_estimateFeesLoad.
  unfold generalBitcoinFeeInfo. keeps_auto.
Qed.

Lemma keeps_generalBitcoinServers : keeps generalBitcoinServers.
Proof. pose proof keeps_generalLoad. unfold generalBitcoinServers. keeps_auto. Qed.

Lemma keeps_generalSyncServers : keeps generalSyncServers.
Proof. pose proof keeps_generalLoad. unfold generalSyncServers. keeps_auto. Qed.

Lemma keeps_call (c : Call) : keeps (call c).
Proof.
  pose proof keeps_generalUpdate. pose proof keeps_generalEstimateFeesNeedUpdate.
  pose proof keeps_generalEstimateFeesUpdate. pose proof keeps_generalBitcoinFeeInfo.
  pose proof keeps_generalBitcoinServers. pose proof keeps_generalSyncServers.
  destruct c; cbn [call]; keeps_auto.
Qed.

Lemma keeps_run (cs : list Call) : keeps (run cs).
Proof.
  induction cs as [|c cs IH]; cbn [run]; [apply keeps_ret|].
  apply keeps_bind; [apply keeps_call | intros _; exact IH].
Qed.

Lemma sound_estimateFeesLoad (w : World) (est : json) (w' : World) :
  feeCacheSound w -> estimateFeesLoad w = Some (est, w') ->
  EstimateFeesJson.confirmFees6 est = 0.
Proof.
  intros [_ Hd] E.
  destruct w as [ctx tn clk [gf sf ff] wr srv e tr].
  unfold estimateFeesLoad, bind, contextUnset, contextPath, fileExists, load, log, ret in E.
  cbn in E, Hd.
  destruct ctx; cbn in E; [|injection E as <- _; reflexivity].
  destruct ff as [[[doc|] t]|]; cbn in E; injection E as <- _;
    first [exact Hd | reflexivity].
Qed.

End FeeCache.

Lemma fixFees_bucket6 (c : list Z) :
  length c = 7%nat ->
  fixFees c !!! 6%nat = Z.min (c !!! 6%nat) (fixFees c !!! 5%nat).
Proof.
  intros Hlen.
  do 7 (destruct c as [|? c]; [discriminate Hlen|]).
  destruct c; [|discriminate Hlen].
  unfold fixFees. cbn.
  repeat match goal with
         | |- context [?a >? ?b] =>
             is_var a; is_var b; destruct (Z.gtb_spec a b); cbn
         end; lia.
Qed.

Lemma chooseFees_bucket6 (feeJson est : json) :
  chooseFees feeJson est !!! 6%nat =
  orElse (EstimateFeesJson.confirmFees6 est) (BitcoinFeesJson.confirmFees6 feeJson).
Proof. reflexivity. Qed.




(** ** Refreshing the general configuration *)

(** Symbolic execution of the monadic code: unfold the primitives and
    the record plumbing, nothing else. *)
Ltac exec :=
  cbv beta iota zeta delta
    [generalLoad generalUpdate needsUpdate serverScoresLoad estimateFeesLoad
     generalBitcoinFeeInfo generalBitcoinServers generalSyncServers
     generalEstimateFeesNeedUpdate
     ABC_CHECK bind ret undefined contextUnset contextPath testnet fileExists fileTime
     time loginServerGetGeneral save load log emit setDisk setEstimator
     getEstimator putEstimator readFile writeFile
     gContext isTestnet clock disk writable server estimator trace
     generalFile serverScoresFile feeCacheFile body mtime negb
     remoteCalls List.filter length].

Ltac exec_in H :=
  cbv beta iota zeta delta
    [generalLoad generalUpdate needsUpdate serverScoresLoad estimateFeesLoad
     generalBitcoinFeeInfo generalBitcoinServers generalSyncServers
     generalEstimateFeesNeedUpdate
     ABC_CHECK bind ret undefined contextUnset contextPath testnet fileExists fileTime
     time loginServerGetGeneral save load log emit setDisk setEstimator
     getEstimator putEstimator readFile writeFile
     gContext isTestnet clock disk writable server estimator trace
     generalFile serverScoresFile feeCacheFile body mtime negb
     remoteCalls List.filter length] in H.

Ltac split_matches :=
  repeat (exec;
          match goal with
          | H : ?f ?p = _ |- context [?f ?p] => rewrite H
          | |- context [match ?x with _ => _ end] => is_var x; destruct x
          | |- context [if ?x then _ else _] => is_var x; destruct x
          end).

(** C4 (as amended).  With the context set, a read of the general
    configuration asks the server exactly when the cached file is
    absent: it then sends one request and, the fetch and the save going
    through, persists the document and returns the snapshot loaded from
    the persisted copy.  When the file is present, stale or not, the read
    returns what is on disk, sends no request and leaves the disk alone.
    The age threshold is applied by [generalUpdate]: it fetches and
    persists when the file is absent or last modified more than 2
    seconds ago, and does neither otherwise. *)
Theorem general_read_refresh (w : World) :
  gContext w = true ->
  (generalFile (disk w) = None ->
     forall doc, server w = Some doc -> writable w generalPath = true ->
     exists w',
       generalLoad w = Some (doc, w') /\
       generalFile (disk w') = Some (mkFile (Some doc) (clock w)) /\
       remoteCalls w' = S (remoteCalls w)) /\
  (forall f, generalFile (disk w) = Some f ->
     exists w',
       generalLoad w = Some (match body f with Some j => j | None => emptyJson end, w') /\
       disk w' = disk w /\
       remoteCalls w' = remoteCalls w) /\
  ((generalFile (disk w) = None \/
    exists f, generalFile (disk w) = Some f /\
              mtime f + GENERAL_ACCEPTABLE_INFO_FILE_AGE_SECS < clock w) ->
     forall doc, server w = Some doc -> writable w generalPath = true ->
     exists w',
       generalUpdate w = Some (Ok, w') /\
       generalFile (disk w') = Some (mkFile (Some doc) (clock w)) /\
       remoteCalls w' = S (remoteCalls w)) /\
  (forall f, generalFile (disk w) = Some f ->
     clock w <= mtime f + GENERAL_ACCEPTABLE_INFO_FILE_AGE_SECS ->
     exists w',
       generalUpdate w = Some (Ok, w') /\
       disk w' = disk w /\
       remoteCalls w' = remoteCalls w).
Proof.
  intros Hctx. destruct w as [ctx tn clk [gf sf ff] wr srv e tr].
  exec_in Hctx. subst ctx.
  repeat split.
  - intros Hgf doc Hsrv Hwr. exec_in Hgf. exec_in Hsrv. exec_in Hwr. subst gf srv.
    destruct (wr serverScoresPath) eqn:Hws;
      split_matches; eexists; repeat split.
  - intros f Hgf. exec_in Hgf. subst gf.
    destruct f as [[j|] t]; exec; eexists; repeat split.
  - intros Hstale doc Hsrv Hwr. exec_in Hsrv. exec_in Hwr. subst srv.
    destruct Hstale as [Hgf|[[bd t] [Hgf Hold]]]; exec_in Hgf; subst gf.
    + destruct (wr serverScoresPath) eqn:Hws;
        split_matches; eexists; repeat split.
    + exec_in Hold. apply Z.ltb_lt in Hold.
      destruct (wr serverScoresPath) eqn:Hws;
        split_matches; eexists; repeat split.
  - intros [bd t] Hgf Hfresh. exec_in Hgf. exec_in Hfresh. subst gf. exec.
    destruct (Z.ltb_spec (t + GENERAL_ACCEPTABLE_INFO_FILE_AGE_SECS) clk) as [Hlt|_];
      [lia|].
    eexists; repeat split.
Qed.

Lemma general_read_refresh_witness :
  let doc := JObject [("syncServers", JArray [JString "https://sync.example/repos"])] in
  exists w',
    generalLoad (freshWorld false 100 (Some doc) (fun _ => true)) = Some (doc, w') /\
    generalFile (disk w') = Some (mkFile (Some doc) 100) /\
    remoteCalls w' = 1%nat.
Proof.
  intros doc.
  destruct (general_read_refresh (freshWorld false 100 (Some doc) (fun _ => true)))
    as (Habsent & _).
  - reflexivity.
  - apply (Habsent eq_refl doc); reflexivity.
Defined.

(** C4 as stated fails: the cached file is 1000 seconds old, far past
    the threshold, and the server has a newer document; the read returns
    the old document and sends no request. *)
Lemma stale_read_serves_cache :
  let old := JObject [("syncServers", JArray [JString "https://old.example/repos"])] in
  let new := JObject [("syncServers", JArray [JString "https://new.example/repos"])] in
  let w := mkWorld true false 1000 (mkDisk (Some (mkFile (Some old) 0)) None None)
             (fun _ => true) (Some new) initialEstimator [] in
  0 + GENERAL_ACCEPTABLE_INFO_FILE_AGE_SECS < clock w /\
  exists w',
    generalLoad w = Some (old, w') /\
    remoteCalls w' = 0%nat /\
    disk w' = disk w.
Proof.
  cbv zeta. split; [reflexivity|]. eexists. split; [reflexivity|]. split; reflexivity.
Qed.

(** ** Reconciling the server scores *)

Lemma iequals_refl (s : string) : iequals s s = true.
Proof.
  induction s as [|c s IH]; [reflexivity|].
  cbn [iequals]. rewrite Ascii.eqb_refl, IH. reflexivity.
Qed.

Lemma ssjNew_serverUrl (url : string) : ServerScoreJson.serverUrl (ssjNew url) = url.
Proof. reflexivity. Qed.

Lemma ssjNew_serverScore (url : string) : ServerScoreJson.serverScore (ssjNew url) = 0.
Proof. reflexivity. Qed.

Lemma matchIn_app (l1 l2 : list json) (url : string) :
  matchIn (l1 ++ l2) url = (matchIn l1 url || matchIn l2 url)%bool.
Proof. unfold matchIn. apply existsb_app. Qed.

Lemma addNewServer_items (scores entry : json) :
  json_array_items (addNewServer scores entry) =
  json_array_items scores ++
  (if matchIn (json_array_items scores) (urlOf entry) then [] else [ssjNew (urlOf entry)]).
Proof.
  unfold addNewServer, serversMatch. fold (urlOf entry).
  fold (matchIn (json_array_items scores) (urlOf entry)).
  destruct (matchIn (json_array_items scores) (urlOf entry)).
  - rewrite app_nil_r. reflexivity.
  - reflexivity.
Qed.

Lemma addNewServers_items (entries : list json) :
  forall scores : json,
    json_array_items (fold_left addNewServer entries scores) =
    json_array_items scores ++ newRecords (json_array_items scores) entries.
Proof.
  induction entries as [|e rest IH]; intros scores; cbn [fold_left newRecords].
  - rewrite app_nil_r. reflexivity.
  - rewrite IH, addNewServer_items.
    destruct (matchIn (json_array_items scores) (urlOf e)).
    + rewrite app_nil_r. reflexivity.
    + rewrite <- app_assoc. reflexivity.
Qed.

(** Every appended record is a fresh score-0 record for a fetched entry
    that no record already there matched. *)
Lemma newRecords_sound (entries : list json) :
  forall items r,
    In r (newRecords items entries) ->
    exists e, In e entries /\ r = ssjNew (urlOf e) /\ matchIn items (urlOf e) = false.
Proof.
  induction entries as [|e rest IH]; intros items r Hin; cbn [newRecords] in Hin.
  - contradiction.
  - destruct (matchIn items (urlOf e)) eqn:Hm.
    + destruct (IH items r Hin) as (e' & He' & Hr & Hno). exists e'. cbn. auto.
    + destruct Hin as [<-|Hin].
      * exists e. cbn. auto.
      * destruct (IH _ r Hin) as (e' & He' & Hr & Hno). exists e'.
        rewrite matchIn_app in Hno. apply orb_false_iff in Hno as [Hno _]. cbn. auto.
Qed.

(** Every fetched entry ends up with a record. *)
Lemma newRecords_complete (entries : list json) :
  forall items e,
    In e entries -> matchIn (items ++ newRecords items entries) (urlOf e) = true.
Proof.
  induction entries as [|e0 rest IH]; intros items e Hin; [contradiction|].
  cbn [newRecords]. destruct (matchIn items (urlOf e0)) eqn:Hm.
  - destruct Hin as [->|Hin].
    + rewrite matchIn_app, Hm. reflexivity.
    + apply IH. exact Hin.
  - replace (items ++ ssjNew (urlOf e0) :: newRecords (items ++ [ssjNew (urlOf e0)]) rest)
      with ((items ++ [ssjNew (urlOf e0)]) ++ newRecords (items ++ [ssjNew (urlOf e0)]) rest)
      by (rewrite <- app_assoc; reflexivity).
    destruct Hin as [->|Hin].
    + rewrite !matchIn_app. unfold matchIn at 2. cbn [existsb].
      rewrite ssjNew_serverUrl, iequals_refl. cbn. rewrite orb_true_r. reflexivity.
    + apply IH. exact Hin.
Qed.

Lemma matchIn_exists (items : list json) (url : string) :
  matchIn items url = true ->
  exists r, In r items /\ iequals (ServerScoreJson.serverUrl r) url = true.
Proof. unfold matchIn. intros H. apply existsb_exists in H. exact H. Qed.

(** No appended record carries, up to case, the URL of a record
    appended before it. *)
Lemma newRecords_distinct (entries : list json) :
  forall items, distinctUrls (newRecords items entries).
Proof.
  unfold distinctUrls.
  induction entries as [|e rest IH]; intros items; cbn [newRecords].
  - constructor.
  - destruct (matchIn items (urlOf e)) eqn:Hm; [apply IH|].
    constructor; [|apply IH].
    apply Forall_forall. intros r Hr. apply list_elem_of_In in Hr.
    destruct (newRecords_sound _ _ _ Hr) as (e' & _ & -> & Hno).
    rewrite matchIn_app in Hno. apply orb_false_iff in Hno as [_ Hno].
    unfold matchIn in Hno. cbn [existsb] in Hno. rewrite orb_false_r in Hno.
    rewrite !ssjNew_serverUrl in *. exact Hno.
Qed.

(** C6.  When a refresh goes through (context set, cached file absent
    or older than the threshold, fetch and both saves succeeding), the
    score list saved is the existing list, every record untouched and in
    place, followed by the appended records, and these are exactly what
    the loop over the fetched server list yields:
    - every URL of the fetched list that no existing record carries up
      to case is carried, up to case, by an appended record;
    - every appended record is a fresh record, with score 0, for the URL
      of an element of the fetched list (the empty URL when the element
      is not a string) that no existing record carries up to case;
    - no appended record carries, up to case, the URL of a record
      appended before it: a URL is appended once, in its first
      spelling. *)
Theorem server_scores_reconciled (w : World) (doc : json) :
  gContext w = true ->
  (generalFile (disk w) = None \/
   exists f, generalFile (disk w) = Some f /\
             mtime f + GENERAL_ACCEPTABLE_INFO_FILE_AGE_SECS < clock w) ->
  server w = Some doc ->
  writable w generalPath = true ->
  writable w serverScoresPath = true ->
  let existing := json_array_items (storedScores w) in
  let fetched := json_array_items (GeneralJson.bitcoinServers doc) in
  exists w' saved added,
    generalUpdate w = Some (Ok, w') /\
    serverScoresFile (disk w') = Some (mkFile (Some saved) (clock w)) /\
    json_array_items saved = existing ++ added /\
    added = newRecords existing fetched /\
    (forall url, In (JString url) fetched -> matchIn existing url = false ->
       exists r, In r added /\
                 iequals (ServerScoreJson.serverUrl r) url = true /\
                 ServerScoreJson.serverScore r = 0) /\
    (forall r, In r added ->
       exists e, In e fetched /\
                 r = JObject [("serverUrl", JString (urlOf e));
                              ("serverScore", JInteger 0)] /\
                 matchIn existing (urlOf e) = false) /\
    (forall r, In r added -> ServerScoreJson.serverScore r = 0) /\
    distinctUrls added.
Proof.
  intros Hctx Hstale Hsrv Hwg Hws. cbv zeta.
  assert (Hrun : exists w',
            generalUpdate w = Some (Ok, w') /\
            serverScoresFile (disk w') =
              Some (mkFile (Some (addNewServers (storedScores w)
                                    (GeneralJson.bitcoinServers doc))) (clock w))).
  { destruct w as [ctx tn clk [gf sf ff] wr srv e tr].
    exec_in Hctx. exec_in Hsrv. exec_in Hwg. exec_in Hws. subst ctx srv.
    unfold storedScores.
    destruct Hstale as [Hgf|[[bd t] [Hgf Hold]]]; exec_in Hgf; subst gf.
    - split_matches; eexists; split; reflexivity.
    - exec_in Hold. apply Z.ltb_lt in Hold.
      split_matches; eexists; split; reflexivity. }
  destruct Hrun as (w' & Hrun & Hfile).
  exists w', (addNewServers (storedScores w) (GeneralJson.bitcoinServers doc)),
    (newRecords (json_array_items (storedScores w))
       (json_array_items (GeneralJson.bitcoinServers doc))).
  split; [exact Hrun|]. split; [exact Hfile|].
  split; [apply addNewServers_items|]. split; [reflexivity|]. split; [|split; [|split]].
  - intros url Hin Hno.
    pose proof (newRecords_complete _ (json_array_items (storedScores w)) _ Hin) as Hm.
    change (urlOf (JString url)) with url in Hm.
    rewrite matchIn_app, Hno in Hm. cbn [orb] in Hm.
    destruct (matchIn_exists _ _ Hm) as (r & Hr & Heq).
    exists r. split; [exact Hr|]. split; [exact Heq|].
    destruct (newRecords_sound _ _ _ Hr) as (e & _ & -> & _). apply ssjNew_serverScore.
  - intros r Hr. destruct (newRecords_sound _ _ _ Hr) as (e & He & -> & Hno).
    exists e. split; [exact He|]. split; [reflexivity | exact Hno].
  - intros r Hr. destruct (newRecords_sound _ _ _ Hr) as (e & _ & -> & _).
    apply ssjNew_serverScore.
  - apply newRecords_distinct.
Qed.

(** The example of the design document, and the same with other
    spellings and a repeat in the fetched list. *)
Lemma server_scores_reconciled_witness :
  let scoreA := JObject [("serverUrl", JString "A"); ("serverScore", JInteger 5)] in
  let scoreB := JObject [("serverUrl", JString "B"); ("serverScore", JInteger 0)] in
  let world := fun doc =>
    mkWorld true false 100
            (mkDisk None (Some (mkFile (Some (JArray [scoreA])) 3)) None)
            (fun _ => true) (Some doc) initialEstimator [] in
  let doc1 := JObject [("obeliskServers", JArray [JString "A"; JString "B"])] in
  let doc2 := JObject [("obeliskServers", JArray [JString "a"; JString "B"; JString "b"])] in
  (exists w' saved,
     generalUpdate (world doc1) = Some (Ok, w') /\
     serverScoresFile (disk w') = Some (mkFile (Some saved) 100) /\
     json_array_items saved = [scoreA; scoreB]) /\
  (exists w' saved,
     generalUpdate (world doc2) = Some (Ok, w') /\
     serverScoresFile (disk w') = Some (mkFile (Some saved) 100) /\
     json_array_items saved = [scoreA; scoreB]).
Proof.
  intros scoreA scoreB world doc1 doc2. split.
  - destruct (server_scores_reconciled (world doc1) doc1)
      as (w' & saved & added & Hrun & Hfile & Hitems & Hadded & _).
    + reflexivity.
    + left. reflexivity.
    + reflexivity.
    + reflexivity.
    + reflexivity.
    + exists w', saved. split; [exact Hrun|]. split; [exact Hfile|].
      rewrite Hitems, Hadded. reflexivity.
  - destruct (server_scores_reconciled (world doc2) doc2)
      as (w' & saved & added & Hrun & Hfile & Hitems & Hadded & _).
    + reflexivity.
    + left. reflexivity.
    + reflexivity.
    + reflexivity.
    + reflexivity.
    + exists w', saved. split; [exact Hrun|]. split; [exact Hfile|].
      rewrite Hitems, Hadded. reflexivity.
Defined.

(** The same with the fetched spelling differing in case: "a" is taken
    for the existing "A". *)
Example server_scores_case_insensitive :
  let scoreA := JObject [("serverUrl", JString "A"); ("serverScore", JInteger 5)] in
  let scoreB := JObject [("serverUrl", JString "B"); ("serverScore", JInteger 0)] in
  addNewServers (JArray [scoreA]) (JArray [JString "a"; JString "B"; JString "b"]) =
  JArray [scoreA; scoreB].
Proof. reflexivity. Qed.

(** ** Defaults *)

(** C7 (as amended).  With no cache file on disk and a server that
    cannot be reached, the accessors still return: the bitcoin-server
    accessor gives the hardcoded fallback list on a mainnet build and the
    hardcoded testnet list on a testnet build, the sync-server accessor
    gives the hardcoded sync endpoint, and the fee-table accessor gives
    the hardcoded default fees and block targets. *)
Theorem defaults_without_cache (w : World) :
  disk w = mkDisk None None None ->
  server w = None ->
  (exists w',
     generalBitcoinServers w =
       Some (if isTestnet w then TESTNET_BITCOIN_SERVERS else FALLBACK_BITCOIN_SERVERS, w')) /\
  (exists w',
     generalSyncServers w = Some (["https://git.sync.airbitz.co/repos"], w')) /\
  (exists w',
     generalBitcoinFeeInfo w =
       Some (mkBitcoinFeeInfo [0; 73210; 62110; 51098; 46001; 31002; 26002] 4 3 2 1, w')).
Proof.
  intros Hdisk Hsrv. destruct w as [ctx tn clk d wr srv e tr].
  exec_in Hdisk. exec_in Hsrv. subst d srv.
  repeat split; destruct ctx, tn; eexists; lazy; reflexivity.
Qed.

Lemma defaults_without_cache_witness :
  exists w1 w2 w3,
    generalBitcoinServers (freshWorld false 100 None (fun _ => true)) =
      Some (FALLBACK_BITCOIN_SERVERS, w1) /\
    generalSyncServers (freshWorld false 100 None (fun _ => true)) =
      Some (["https://git.sync.airbitz.co/repos"], w2) /\
    generalBitcoinFeeInfo (freshWorld false 100 None (fun _ => true)) =
      Some (mkBitcoinFeeInfo [0; 73210; 62110; 51098; 46001; 31002; 26002] 4 3 2 1, w3).
Proof.
  destruct (defaults_without_cache (freshWorld false 100 None (fun _ => true)))
    as ((w1 & H1) & (w2 & H2) & (w3 & H3)).
  - reflexivity.
  - reflexivity.
  - exists w1, w2, w3. auto.
Defined.

(** C7 as stated fails on a testnet build: the bitcoin-server accessor
    returns the testnet list, which is not the fallback list. *)
Lemma testnet_servers_not_fallback :
  exists w',
    generalBitcoinServers (freshWorld true 100 None (fun _ => true)) =
      Some (["tcp://obelisk-testnet.airbitz.co:9091"], w') /\
    ["tcp://obelisk-testnet.airbitz.co:9091"] <> FALLBACK_BITCOIN_SERVERS.
Proof. eexists. split; [reflexivity | discriminate]. Qed.

End CacheFacts.

(* ===================================================================== *)
(** * Accounts and logins                                                *)
(* ===================================================================== *)

Module AccountFacts.
Import Login Account Notions.

Section Sync.

Context {Repos Wallets : Type}.
Variable syncRepo : string -> string -> bool -> Repos -> (Status * bool) * Repos.
Variable syncEnsureRepo : string -> string -> string -> Repos -> Status * Repos.
Variable walletsLoad : string -> Repos -> Wallets -> Status * Wallets.
Variable loginDir : Login -> string.

#[local] Abbreviation sync := (Account.sync syncRepo syncEnsureRepo walletsLoad loginDir).
#[local] Abbreviation load := (Account.load syncEnsureRepo walletsLoad loginDir).

Lemma load_loadCalls (s : State) :
  loadCalls (snd (load s)) = S (loadCalls s).
Proof.
  unfold Account.load, loadCalls.
  destruct (syncEnsureRepo _ _ _ _) as [[|c] r]; [|reflexivity].
  destruct (walletsLoad _ _ _) as [[|c] ws]; reflexivity.
Qed.


End Sync.


(** A pull that brings changes: the wallets are reloaded from the new
    working copy. *)
Example sync_dirty_reloads :
  let syncRepo := fun (_ _ : string) (_ : bool) (r : nat) => ((Ok, true), S r) in
  let syncEnsureRepo := fun (_ _ _ : string) (r : nat) => (Ok, r) in
  let walletsLoad := fun (_ : string) (r : nat) (_ : list string) => (Ok, repeat "wallet" r) in
  let loginDir := fun l : Login => ("/accounts/" ++ lobby l ++ "/")%string in
  let a := mkAccount (mkLogin "alice" [] "") "/accounts/alice/sync/" [] "5eed"
                     ["savings"] in
  Account.sync syncRepo syncEnsureRepo walletsLoad loginDir false (mkState a 1%nat []) =
    ((Ok, true),
     mkState (setWallets a ["wallet"; "wallet"]) 2%nat
             [InvWalletsLoad; InvSyncEnsureRepo "/accounts/alice/tmp/"; InvSyncRepo]).
Proof. reflexivity. Qed.

End AccountFacts.

Module LoginFacts.
Import Login.

Section RepoFind.

Variable deriveRepositoryId : DataChunk -> string -> string.

#[local] Abbreviation repoFind := (Login.repoFind deriveRepositoryId).

(** A call that succeeds returns the descriptor made of the master key
    and the derived identifier, and leaves the repository provisioned on
    a reachable remote. *)
Lemma repoFind_ok (l : Login) (result : RepoInfo) (type : string) (create : bool)
    (remote : Remote) (info : RepoInfo) (remote' : Remote) :
  repoFind l result type create remote = ((Ok, info), remote') ->
  info = mkRepoInfo (dataKey l) (deriveRepositoryId (dataKey l) type) /\
  reachable remote' = true /\
  provisioned (deriveRepositoryId (dataKey l) type) remote' = true.
Proof.
  unfold Login.repoFind.
  destruct (reachable remote) eqn:Hr; cbn [negb]; [|discriminate].
  destruct (provisioned _ remote) eqn:Hp.
  - intros E. injection E as <- <-. auto.
  - destruct create; [|discriminate].
    intros E. injection E as <- <-.
    split; [reflexivity|]. split; [reflexivity|].
    unfold provisioned. cbn. rewrite String.eqb_refl. reflexivity.
Qed.

(** C8.  For a fixed master key and purpose, any two calls of repoFind
    that succeed, on the same Login or on two Logins holding the same
    master key, whatever the state of the remote side and the create
    flag, return equal descriptors; and once a call has succeeded, every
    further call on that Login for that purpose succeeds with the same
    descriptor and changes nothing. *)
Theorem repoFind_deterministic (l1 l2 : Login) (type : string)
    (create1 create2 : bool) (result1 result2 : RepoInfo) (remote1 remote2 : Remote)
    (info1 info2 : RepoInfo) (remote1' remote2' : Remote) :
  dataKey l1 = dataKey l2 ->
  repoFind l1 result1 type create1 remote1 = ((Ok, info1), remote1') ->
  repoFind l2 result2 type create2 remote2 = ((Ok, info2), remote2') ->
  info1 = info2 /\
  forall create result,
    repoFind l1 result type create remote1' = ((Ok, info1), remote1').
Proof.
  intros Hkey H1 H2.
  destruct (repoFind_ok _ _ _ _ _ _ _ H1) as (-> & Hr1 & Hp1).
  destruct (repoFind_ok _ _ _ _ _ _ _ H2) as (-> & _ & _).
  split; [rewrite Hkey; reflexivity|].
  intros create result. unfold Login.repoFind. rewrite Hr1, Hp1. reflexivity.
Qed.

End RepoFind.

Lemma repoFind_deterministic_witness :
  let derive := fun (key : DataChunk) (type : string) =>
                  (type ++ "-" ++ string_of_list_byte key)%string in
  let key := [Byte.x6b; Byte.x65; Byte.x79] in
  let phone := mkLogin "/phone/alice/" key "" in
  let laptop := mkLogin "/laptop/alice/" key "" in
  let info := mkRepoInfo key "account:repo:wallet-key" in
  Login.repoFind derive phone (mkRepoInfo [] "") "account:repo:wallet" true
                 (mkRemote true []) = ((Ok, info), mkRemote true ["account:repo:wallet-key"]) /\
  Login.repoFind derive laptop (mkRepoInfo [] "") "account:repo:wallet" false
                 (mkRemote true ["account:repo:wallet-key"])
    = ((Ok, info), mkRemote true ["account:repo:wallet-key"]) /\
  Login.repoFind derive phone (mkRepoInfo [] "") "account:repo:wallet" false
                 (mkRemote true ["account:repo:wallet-key"])
    = ((Ok, info), mkRemote true ["account:repo:wallet-key"]).
Proof.
  intros derive key phone laptop info.
  assert (H1 : Login.repoFind derive phone (mkRepoInfo [] "") "account:repo:wallet" true
                 (mkRemote true [])
               = ((Ok, info), mkRemote true ["account:repo:wallet-key"])) by reflexivity.
  assert (H2 : Login.repoFind derive laptop (mkRepoInfo [] "") "account:repo:wallet" false
                 (mkRemote true ["account:repo:wallet-key"])
               = ((Ok, info), mkRemote true ["account:repo:wallet-key"])) by reflexivity.
  destruct (repoFind_deterministic derive phone laptop "account:repo:wallet" true false
              (mkRepoInfo [] "") (mkRepoInfo [] "") (mkRemote true [])
              (mkRemote true ["account:repo:wallet-key"]) info info
              (mkRemote true ["account:repo:wallet-key"])
              (mkRemote true ["account:repo:wallet-key"]) eq_refl H1 H2)
    as (_ & Hagain).
  split; [exact H1|]. split; [exact H2|]. apply Hagain.
Defined.

End LoginFacts.

(* ===================================================================== *)
(** * Further properties of the fee-estimate aggregator                  *)
(* ===================================================================== *)

Module EstimatorExtras.
Import General Notions EstimatorFacts.

Lemma runningMean_snoc (xs : list Z) (x : Z) :
  runningMean (xs ++ [x]) = meanStep (runningMean xs) x.
Proof. unfold runningMean. rewrite fold_left_app. reflexivity. Qed.

(** From process start: the history, then one more submission; where
    every bucket stands afterwards and what the submission did
    outside. *)
Lemma submit_one_more (history : list (nat * Z)) (blocks : nat) (feeBase : Z) (w : World) :
  gContext w = true ->
  estimator w = initialEstimator ->
  Forall (fun s => (fst s < 6)%nat /\ 0 <= snd s) (history ++ [(blocks, feeBase)]) ->
  sum (map snd (history ++ [(blocks, feeBase)])) < 2 ^ 53 ->
  Z.of_nat (length (history ++ [(blocks, feeBase)])) < 2 ^ 64 ->
  exists w1 st w2,
    submitAll history w = Some (tt, w1) /\
    generalEstimateFeesUpdate blocks feeBase w1 = Some (st, w2) /\
    writable w1 = writable w /\ clock w1 = clock w /\ gContext w2 = true /\
    (forall b, (b < 6)%nat ->
       bucket (estimator w1) b = runningMean (samplesOf b history)) /\
    (forall b, (b < 6)%nat ->
       bucket (estimator w2) b =
       runningMean (samplesOf b (history ++ [(blocks, feeBase)]))) /\
    (allBucketsPositive (estimatedFees (estimator w2)) = true ->
       trace w2 = EvSave feeCachePath (feesJson (estimatedFees (estimator w2))) :: trace w1 /\
       (writable w feeCachePath = true ->
          st = Ok /\
          disk w2 = writeFile (disk w1) feeCachePath
                      (mkFile (Some (feesJson (estimatedFees (estimator w2)))) (clock w))) /\
       (writable w feeCachePath = false ->
          st = Err ABC_CC_FileWriteError /\ disk w2 = disk w1)) /\
    (allBucketsPositive (estimatedFees (estimator w2)) = false ->
       st = Ok /\ trace w2 = trace w1 /\ disk w2 = disk w1).
Proof.
  intros Hctx He HF Hs Hl.
  apply Forall_app in HF as HF2. destruct HF2 as [HFh HFn].
  inversion HFn as [|? ? [Hblocks Hfee] _]; subst. cbn [fst snd] in Hblocks, Hfee.
  rewrite map_app, sum_app in Hs. rewrite length_app, Nat2Z.inj_add in Hl.
  cbn [map sum fold_right length snd] in Hs, Hl.
  pose proof (samplesOf_bounds blocks history HFh) as (Hnn & Hsum & Hlen).
  pose proof (sum_nonneg _ Hnn) as Hpos.
  destruct (submitAll_fresh history w Hctx He HFh ltac:(lia) ltac:(lia))
    as (w1 & Hrun & Hctx1 & Hwf1 & Hwr1 & Hcl1 & Hbk).
  pose proof (runningMean_bounds _ Hnn) as (Hcount & Hmean & Htot & _).
  cbv zeta in Hcount, Hmean, Htot.
  rewrite <- (Hbk blocks Hblocks) in Hcount, Hmean, Htot.
  assert (Hfits : fits (bucket (estimator w1) blocks) [feeBase]).
  { unfold fits. cbn [sum fold_right length].
    split; [lia|]. split; [lia|]. split; [repeat constructor; lia|].
    split; [nia | lia]. }
  destruct (fits_step _ _ _ Hfits) as (_ & _ & Hsum1 & Hcnt1).
  destruct (generalEstimateFeesUpdate_spec blocks feeBase [] w1 Hctx1 Hwf1 Hblocks Hfits)
    as (st & w2 & Hupd & Hctx2 & He2 & Hwr2 & Hcl2 & Hsave & Hskip).
  exists w1, st, w2. split; [exact Hrun|]. split; [exact Hupd|].
  split; [exact Hwr1|]. split; [exact Hcl1|]. split; [exact Hctx2|].
  split; [exact Hbk|]. split.
  - intros b Hb. rewrite samplesOf_app, He2.
    destruct (Nat.eq_dec blocks b) as [<-|Hne].
    + rewrite nextEstimator_same by assumption.
      rewrite samplesOf_cons_same. change (samplesOf blocks []) with (@nil Z).
      rewrite runningMean_snoc, Hbk by assumption. reflexivity.
    + rewrite nextEstimator_other by assumption.
      rewrite samplesOf_cons_other by assumption. change (samplesOf b []) with (@nil Z).
      rewrite app_nil_r. apply Hbk. exact Hb.
  - split.
    + intros Hall. destruct (Hsave Hall) as (Ht & Hok & Hfail). split; [exact Ht|].
      rewrite <- Hwr1, <- Hcl1. split; assumption.
    + exact Hskip.
Qed.

(** The truncated mean stays between the bounds of the samples. *)
Lemma meanStep_fold_between (lo hi : Z) (xs : list Z) :
  forall m n : Z,
    0 <= n -> (n = 0 \/ lo <= m <= hi) ->
    Forall (fun x => lo <= x <= hi) xs ->
    (n = 0 /\ xs = []) \/
    lo <= fst (fold_left meanStep xs (m, n)) <= hi.
Proof.
  induction xs as [|x xs IH]; intros m n Hn Hm HF.
  - destruct Hm as [->|Hm]; [left; auto | right; exact Hm].
  - right. inversion HF as [|? ? Hx HF']; subst. cbn [fold_left].
    change (meanStep (m, n) x) with ((m * n + x) / (n + 1), n + 1).
    assert (Hstep : lo <= (m * n + x) / (n + 1) <= hi).
    { destruct Hm as [->|Hm].
      - rewrite Z.mul_0_r, Z.add_0_l, Z.div_1_r. exact Hx.
      - split.
        + apply Z.div_le_lower_bound; nia.
        + apply Z.div_le_upper_bound; nia. }
    destruct (IH ((m * n + x) / (n + 1)) (n + 1) ltac:(lia) (or_intror Hstep) HF')
      as [[Hz _]|H]; [lia | exact H].
Qed.

(** X1.  From process start, whatever else was submitted in between,
    the mean stored for a bucket that has received samples lies between
    the smallest and the largest of them: truncation never takes it out
    of the range of its samples. *)
Theorem mean_between_samples (samples : list (nat * Z)) (w : World) (b : nat)
    (lo hi : Z) :
  gContext w = true ->
  estimator w = initialEstimator ->
  Forall (fun s => (fst s < 6)%nat /\ 0 <= snd s) samples ->
  sum (map snd samples) < 2 ^ 53 ->
  Z.of_nat (length samples) < 2 ^ 64 ->
  (b < 6)%nat ->
  samplesOf b samples <> [] ->
  Forall (fun x => lo <= x <= hi) (samplesOf b samples) ->
  exists w',
    submitAll samples w = Some (tt, w') /\
    lo <= estimatedFees (estimator w') !!! b <= hi.
Proof.
  intros Hctx He HF Hs Hl Hb Hne Hrange.
  destruct (submitAll_fresh samples w Hctx He HF Hs Hl) as (w' & Hrun & _ & _ & _ & _ & Hbk).
  exists w'. split; [exact Hrun|].
  specialize (Hbk b Hb). unfold bucket in Hbk.
  destruct (meanStep_fold_between lo hi (samplesOf b samples) 0 0 ltac:(lia)
              (or_introl eq_refl) Hrange) as [[_ Hnil]|H]; [contradiction|].
  fold (runningMean (samplesOf b samples)) in H. rewrite <- Hbk in H. exact H.
Qed.

Lemma mean_between_samples_witness :
  exists w',
    submitAll [(2%nat, 7); (4%nat, 100); (2%nat, 8); (2%nat, 10)]
              (freshWorld false 0 None (fun _ => true)) = Some (tt, w') /\
    7 <= estimatedFees (estimator w') !!! 2%nat <= 10.
Proof.
  apply (mean_between_samples
           [(2%nat, 7); (4%nat, 100); (2%nat, 8); (2%nat, 10)]
           (freshWorld false 0 None (fun _ => true)) 2 7 10).
  - reflexivity.
  - reflexivity.
  - repeat constructor; cbn; lia.
  - vm_compute. reflexivity.
  - vm_compute. reflexivity.
  - lia.
  - discriminate.
  - repeat constructor; cbn; lia.
Defined.


Lemma runningMean_nil_mean (b : nat) (samples : list (nat * Z)) :
  samplesOf b samples = [] -> fst (runningMean (samplesOf b samples)) = 0.
Proof. intros ->. reflexivity. Qed.

(** X2.  When every sample is at least one base unit, the save is gated
    on the buckets having samples: from process start, a submission
    saves the fee document exactly when, with it, each of the buckets 1
    to 5 has received at least one sample. *)
Theorem positive_samples_save_when_all_sampled (history : list (nat * Z))
    (blocks : nat) (feeBase : Z) (w : World) :
  gContext w = true ->
  estimator w = initialEstimator ->
  Forall (fun s => (fst s < 6)%nat /\ 1 <= snd s) (history ++ [(blocks, feeBase)]) ->
  sum (map snd (history ++ [(blocks, feeBase)])) < 2 ^ 53 ->
  Z.of_nat (length (history ++ [(blocks, feeBase)])) < 2 ^ 64 ->
  exists w1 st w2,
    submitAll history w = Some (tt, w1) /\
    generalEstimateFeesUpdate blocks feeBase w1 = Some (st, w2) /\
    ((forall b, (1 <= b <= 5)%nat -> samplesOf b (history ++ [(blocks, feeBase)]) <> []) ->
       trace w2 = EvSave feeCachePath (feesJson (estimatedFees (estimator w2))) :: trace w1) /\
    ((exists b, (1 <= b <= 5)%nat /\ samplesOf b (history ++ [(blocks, feeBase)]) = []) ->
       trace w2 = trace w1 /\ disk w2 = disk w1).
Proof.
  intros Hctx He HF Hs Hl.
  assert (HF0 : Forall (fun s => (fst s < 6)%nat /\ 0 <= snd s)
                       (history ++ [(blocks, feeBase)])).
  { eapply Forall_impl; [exact HF|]. cbn. intros s [H1 H2]. split; [exact H1 | lia]. }
  destruct (submit_one_more history blocks feeBase w Hctx He HF0 Hs Hl)
    as (w1 & st & w2 & Hrun & Hupd & _ & _ & _ & _ & Hbk2 & Hsave & Hskip).
  exists w1, st, w2. split; [exact Hrun|]. split; [exact Hupd|]. split.
  - intros Hall. apply Hsave. apply allBucketsPositive_iff. intros b Hb.
    assert (Hb6 : (b < 6)%nat) by lia.
    assert (Hr : Forall (fun x => 1 <= x <= sum (map snd (history ++ [(blocks, feeBase)])))
                        (samplesOf b (history ++ [(blocks, feeBase)]))).
    { clear -HF. induction HF as [|[b0 x] l [H1 H2] HF' IH]; [constructor|].
      cbn [fst snd] in *. cbn [map sum fold_right snd]. fold (sum (map snd l)).
      assert (Hl0 : 0 <= sum (map snd l)).
      { apply sum_nonneg. clear -HF'. induction HF' as [|s l' [_ H] _ IH]; constructor;
          [lia | exact IH]. }
      assert (Hw : Forall (fun y => 1 <= y <= x + sum (map snd l)) (samplesOf b l)).
      { eapply Forall_impl; [exact IH|]. cbn. intros y Hy. lia. }
      destruct (Nat.eq_dec b0 b) as [->|Hne].
      - rewrite samplesOf_cons_same. constructor; [lia | exact Hw].
      - rewrite samplesOf_cons_other by assumption. exact Hw. }
    destruct (meanStep_fold_between 1 _ _ 0 0 ltac:(lia) (or_introl eq_refl) Hr)
      as [[_ Hnil]|H]; [exfalso; exact (Hall b Hb Hnil)|].
    fold (runningMean (samplesOf b (history ++ [(blocks, feeBase)]))) in H.
    rewrite <- (Hbk2 b Hb6) in H. cbn [bucket fst] in H. lia.
  - intros (b & Hb & Hnil). apply Hskip.
    destruct (allBucketsPositive _) eqn:Hall; [|reflexivity]. exfalso.
    apply allBucketsPositive_iff with (b := b) in Hall; [|exact Hb].
    pose proof (Hbk2 b ltac:(lia)) as Hbk. apply (f_equal fst) in Hbk.
    rewrite (runningMean_nil_mean _ _ Hnil) in Hbk. cbn [bucket fst] in Hbk. lia.
Qed.

Lemma positive_samples_save_when_all_sampled_witness :
  exists w1 st w2,
    submitAll [(1%nat, 5); (2%nat, 4); (1%nat, 2); (3%nat, 3); (4%nat, 2)]
              (freshWorld false 7 None (fun _ => true)) = Some (tt, w1) /\
    generalEstimateFeesUpdate 5 1 w1 = Some (st, w2) /\
    trace w2 = EvSave feeCachePath (feesJson (estimatedFees (estimator w2))) :: trace w1.
Proof.
  destruct (positive_samples_save_when_all_sampled
              [(1%nat, 5); (2%nat, 4); (1%nat, 2); (3%nat, 3); (4%nat, 2)] 5 1
              (freshWorld false 7 None (fun _ => true)))
    as (w1 & st & w2 & Hrun & Hupd & Hsave & _).
  - reflexivity.
  - reflexivity.
  - repeat constructor; cbn; lia.
  - vm_compute. reflexivity.
  - vm_compute. reflexivity.
  - exists w1, st, w2. split; [exact Hrun|]. split; [exact Hupd|]. apply Hsave.
    intros b Hb.
    assert (b = 1 \/ b = 2 \/ b = 3 \/ b = 4 \/ b = 5)%nat as Hc by lia.
    destruct Hc as [->|[->|[->|[->| ->]]]]; discriminate.
Defined.

(** X3.  A save that fails is reported and does not undo the update:
    when the fee cache file cannot be written, a submission that brings
    all five means above zero returns the write error and leaves the
    disk as it was, while the mean and the count of its bucket have
    moved on as for any submission. *)
Theorem failed_save_keeps_update (history : list (nat * Z)) (blocks : nat)
    (feeBase : Z) (w : World) :
  gContext w = true ->
  estimator w = initialEstimator ->
  Forall (fun s => (fst s < 6)%nat /\ 0 <= snd s) (history ++ [(blocks, feeBase)]) ->
  sum (map snd (history ++ [(blocks, feeBase)])) < 2 ^ 53 ->
  Z.of_nat (length (history ++ [(blocks, feeBase)])) < 2 ^ 64 ->
  writable w feeCachePath = false ->
  exists w1 st w2,
    submitAll history w = Some (tt, w1) /\
    generalEstimateFeesUpdate blocks feeBase w1 = Some (st, w2) /\
    disk w2 = disk w1 /\
    bucket (estimator w2) blocks = meanStep (bucket (estimator w1) blocks) feeBase /\
    ((forall b, (1 <= b <= 5)%nat -> 0 < estimatedFees (estimator w2) !!! b) ->
       st = Err ABC_CC_FileWriteError) /\
    (~ (forall b, (1 <= b <= 5)%nat -> 0 < estimatedFees (estimator w2) !!! b) ->
       st = Ok).
Proof.
  intros Hctx He HF Hs Hl Hwr.
  assert (Hblocks : (blocks < 6)%nat).
  { apply Forall_app in HF as [_ HFn]. inversion HFn as [|? ? [H _] _]. exact H. }
  destruct (submit_one_more history blocks feeBase w Hctx He HF Hs Hl)
    as (w1 & st & w2 & Hrun & Hupd & _ & _ & _ & Hbk1 & Hbk2 & Hsave & Hskip).
  exists w1, st, w2. split; [exact Hrun|]. split; [exact Hupd|].
  assert (Hstep : bucket (estimator w2) blocks
                  = meanStep (bucket (estimator w1) blocks) feeBase).
  { rewrite (Hbk2 blocks Hblocks), (Hbk1 blocks Hblocks), samplesOf_app,
      samplesOf_cons_same. apply runningMean_snoc. }
  destruct (allBucketsPositive (estimatedFees (estimator w2))) eqn:Hall.
  - destruct (Hsave eq_refl) as (_ & _ & Hfail). destruct (Hfail Hwr) as [Hst Hd].
    split; [exact Hd|]. split; [exact Hstep|]. split; [intros _; exact Hst|].
    intros Hnot. exfalso. apply Hnot. apply allBucketsPositive_iff. exact Hall.
  - destruct (Hskip eq_refl) as (Hst & _ & Hd).
    split; [exact Hd|]. split; [exact Hstep|]. split; [|intros _; exact Hst].
    intros Hpos. apply allBucketsPositive_iff in Hpos. congruence.
Qed.

Lemma failed_save_keeps_update_witness :
  exists w1 w2,
    submitAll [(1%nat, 5); (2%nat, 4); (3%nat, 3); (4%nat, 2)]
              (freshWorld false 7 None (fun _ => false)) = Some (tt, w1) /\
    generalEstimateFeesUpdate 5 1 w1 = Some (Err ABC_CC_FileWriteError, w2) /\
    disk w2 = mkDisk None None None /\
    bucket (estimator w2) 5 = (1, 1).
Proof.
  destruct (failed_save_keeps_update
              [(1%nat, 5); (2%nat, 4); (3%nat, 3); (4%nat, 2)] 5 1
              (freshWorld false 7 None (fun _ => false)))
    as (w1 & st & w2 & Hrun & Hupd & Hdisk & Hstep & Herr & _).
  - reflexivity.
  - reflexivity.
  - repeat constructor; cbn; lia.
  - vm_compute. reflexivity.
  - vm_compute. reflexivity.
  - reflexivity.
  - assert (Hw1 : w1 = setEstimator (freshWorld false 7 None (fun _ => false))
                         (mkEstimator true [0; 5; 4; 3; 2; 0] [0; 1; 1; 1; 1; 0])).
    { vm_compute in Hrun. injection Hrun as <-. reflexivity. }
    assert (Hst : st = Err ABC_CC_FileWriteError).
    { apply Herr. intros b Hb. rewrite Hw1 in Hupd. vm_compute in Hupd.
      injection Hupd as _ <-.
      assert (b = 1 \/ b = 2 \/ b = 3 \/ b = 4 \/ b = 5)%nat as Hc by lia.
      destruct Hc as [->|[->|[->|[->| ->]]]]; reflexivity. }
    exists w1, w2. split; [exact Hrun|]. rewrite <- Hst. split; [exact Hupd|].
    split; [rewrite Hdisk, Hw1; reflexivity|].
    rewrite Hstep, Hw1. reflexivity.
Defined.

(** X4.  Once a submission has saved the fee document, the fee cache
    does not ask for an update until 3 hours have gone by, and asks for
    one from then on. *)
Theorem saved_estimates_fresh_for_three_hours (history : list (nat * Z))
    (blocks : nat) (feeBase : Z) (w : World) (later : Z) :
  gContext w = true ->
  estimator w = initialEstimator ->
  Forall (fun s => (fst s < 6)%nat /\ 0 <= snd s) (history ++ [(blocks, feeBase)]) ->
  sum (map snd (history ++ [(blocks, feeBase)])) < 2 ^ 53 ->
  Z.of_nat (length (history ++ [(blocks, feeBase)])) < 2 ^ 64 ->
  writable w feeCachePath = true ->
  exists w1 st w2,
    submitAll history w = Some (tt, w1) /\
    generalEstimateFeesUpdate blocks feeBase w1 = Some (st, w2) /\
    ((forall b, (1 <= b <= 5)%nat -> 0 < estimatedFees (estimator w2) !!! b) ->
     exists w3,
       generalEstimateFeesNeedUpdate (atTime later w2)
         = Some (clock w + ESTIMATED_FEES_ACCEPTABLE_INFO_FILE_AGE_SECS <? later, w3) /\
       disk w3 = disk w2).
Proof.
  intros Hctx He HF Hs Hl Hwr.
  destruct (submit_one_more history blocks feeBase w Hctx He HF Hs Hl)
    as (w1 & st & w2 & Hrun & Hupd & _ & _ & Hctx2 & _ & _ & Hsave & _).
  exists w1, st, w2. split; [exact Hrun|]. split; [exact Hupd|].
  intros Hpos. apply allBucketsPositive_iff in Hpos.
  destruct (Hsave Hpos) as (_ & Hok & _). destruct (Hok Hwr) as [_ Hd].
  unfold generalEstimateFeesNeedUpdate, needsUpdate, bind, contextPath, fileTime, time,
    ret, atTime. cbn [gContext disk clock readFile]. rewrite Hctx2, Hd. cbn.
  eexists. split; reflexivity.
Qed.

Lemma saved_estimates_fresh_for_three_hours_witness :
  exists w1 st w2 w3,
    submitAll [(1%nat, 5); (2%nat, 4); (3%nat, 3); (4%nat, 2)]
              (freshWorld false 7 None (fun _ => true)) = Some (tt, w1) /\
    generalEstimateFeesUpdate 5 1 w1 = Some (st, w2) /\
    generalEstimateFeesNeedUpdate (atTime 10807 w2) = Some (false, w3).
Proof.
  destruct (saved_estimates_fresh_for_three_hours
              [(1%nat, 5); (2%nat, 4); (3%nat, 3); (4%nat, 2)] 5 1
              (freshWorld false 7 None (fun _ => true)) 10807)
    as (w1 & st & w2 & Hrun & Hupd & Hneed).
  - reflexivity.
  - reflexivity.
  - repeat constructor; cbn; lia.
  - vm_compute. reflexivity.
  - vm_compute. reflexivity.
  - reflexivity.
  - destruct Hneed as (w3 & Hn & _).
    + intros b Hb.
      assert (Hw1 : w1 = setEstimator (freshWorld false 7 None (fun _ => true))
                           (mkEstimator true [0; 5; 4; 3; 2; 0] [0; 1; 1; 1; 1; 0])).
      { vm_compute in Hrun. injection Hrun as <-. reflexivity. }
      rewrite Hw1 in Hupd. vm_compute in Hupd. injection Hupd as _ <-.
      assert (b = 1 \/ b = 2 \/ b = 3 \/ b = 4 \/ b = 5)%nat as Hc by lia.
      destruct Hc as [->|[->|[->|[->| ->]]]]; reflexivity.
    + exists w1, st, w2, w3. split; [exact Hrun|]. split; [exact Hupd|]. exact Hn.
Defined.

End EstimatorExtras.

(* ===================================================================== *)
(** * Further properties of the configuration cache                      *)
(* ===================================================================== *)

Module CacheExtras.
Import General Notions CacheFacts.
Local Open Scope world_scope.

(** ** Refreshes that fail *)

(** X5.  A refresh that cannot fetch, or cannot save what it fetched,
    reports the error and leaves every cache file as it was; it has sent
    its one request and has not looked at the server-score file. *)
Theorem failed_refresh_keeps_cache (w : World) :
  gContext w = true ->
  (generalFile (disk w) = None \/
   exists f, generalFile (disk w) = Some f /\
             mtime f + GENERAL_ACCEPTABLE_INFO_FILE_AGE_SECS < clock w) ->
  (server w = None \/ writable w generalPath = false) ->
  exists c w' evs,
    generalUpdate w = Some (Err c, w') /\
    disk w' = disk w /\
    remoteCalls w' = S (remoteCalls w) /\
    trace w' = evs ++ trace w /\
    existsb touchesScores evs = false.
Proof.
  intros Hctx Hstale Hfail. destruct w as [ctx tn clk [gf sf ff] wr srv e tr].
  exec_in Hctx. subst ctx.
  assert (Hs : (match gf with Some f => mtime f + GENERAL_ACCEPTABLE_INFO_FILE_AGE_SECS <? clk
                         | None => true end) = true).
  { destruct Hstale as [Hgf|[f [Hgf Hold]]]; exec_in Hgf; subst gf; [reflexivity|].
    exec_in Hold. apply Z.ltb_lt. destruct f. exact Hold. }
  destruct Hfail as [Hsrv|Hwr]; [exec_in Hsrv; subst srv | exec_in Hwr].
  - destruct gf as [[bd t]|]; exec; exec_in Hs; rewrite ?Hs;
      eexists _, _, [_; _]; repeat split.
  - destruct srv as [doc|]; destruct gf as [[bd t]|]; exec; exec_in Hs; rewrite ?Hs, ?Hwr;
      first [ eexists _, _, [_; _; _]; repeat split; fail
            | eexists _, _, [_; _]; repeat split ].
Qed.

Lemma failed_refresh_keeps_cache_witness :
  let old := JObject [("syncServers", JArray [JString "https://old.example/repos"])] in
  let w := mkWorld true false 1000 (mkDisk (Some (mkFile (Some old) 0)) None None)
             (fun _ => true) None initialEstimator [] in
  exists c w',
    generalUpdate w = Some (Err c, w') /\ disk w' = disk w /\ remoteCalls w' = 1%nat.
Proof.
  intros old w.
  destruct (failed_refresh_keeps_cache w) as (c & w' & evs & Hrun & Hd & Hr & _).
  - reflexivity.
  - right. eexists. split; [reflexivity|]. reflexivity.
  - left. reflexivity.
  - exists c, w'. auto.
Defined.

(** X6.  The outcome of saving the reconciled server scores is not
    looked at: when only the score file cannot be written, the refresh
    still succeeds, the configuration file holds the fetched document,
    and the score file is what it was. *)
Theorem refresh_ignores_score_save_failure (w : World) (doc : json) :
  gContext w = true ->
  (generalFile (disk w) = None \/
   exists f, generalFile (disk w) = Some f /\
             mtime f + GENERAL_ACCEPTABLE_INFO_FILE_AGE_SECS < clock w) ->
  server w = Some doc ->
  writable w generalPath = true ->
  writable w serverScoresPath = false ->
  exists w',
    generalUpdate w = Some (Ok, w') /\
    generalFile (disk w') = Some (mkFile (Some doc) (clock w)) /\
    serverScoresFile (disk w') = serverScoresFile (disk w) /\
    feeCacheFile (disk w') = feeCacheFile (disk w).
Proof.
  intros Hctx Hstale Hsrv Hwg Hws. destruct w as [ctx tn clk [gf sf ff] wr srv e tr].
  exec_in Hctx. exec_in Hsrv. exec_in Hwg. exec_in Hws. subst ctx srv.
  destruct Hstale as [Hgf|[[bd t] [Hgf Hold]]]; exec_in Hgf; subst gf.
  - split_matches; eexists; repeat split.
  - exec_in Hold. apply Z.ltb_lt in Hold.
    split_matches; eexists; repeat split.
Qed.

Lemma refresh_ignores_score_save_failure_witness :
  let doc := JObject [("obeliskServers", JArray [JString "tcp://a.example:9091"])] in
  let w := mkWorld true false 100 (mkDisk None None None)
             (fun p => match p with serverScoresPath => false | _ => true end)
             (Some doc) initialEstimator [] in
  exists w',
    generalUpdate w = Some (Ok, w') /\
    disk w' = mkDisk (Some (mkFile (Some doc) 100)) None None.
Proof.
  intros doc w.
  destruct (refresh_ignores_score_save_failure w doc) as (w' & Hrun & Hg & Hs & Hf).
  - reflexivity.
  - left. reflexivity.
  - reflexivity.
  - reflexivity.
  - reflexivity.
  - exists w'. split; [exact Hrun|].
    destruct (disk w') as [g s f]. cbn in Hg, Hs, Hf. subst. reflexivity.
Defined.

(** X7.  A refresh that went through is not repeated within the age
    limit: called again up to 2 seconds later, [generalUpdate] succeeds
    without a request and without touching the disk. *)
Theorem refresh_not_repeated_within_age (w : World) (doc : json) (later : Z) :
  gContext w = true ->
  (generalFile (disk w) = None \/
   exists f, generalFile (disk w) = Some f /\
             mtime f + GENERAL_ACCEPTABLE_INFO_FILE_AGE_SECS < clock w) ->
  server w = Some doc ->
  writable w generalPath = true ->
  later <= clock w + GENERAL_ACCEPTABLE_INFO_FILE_AGE_SECS ->
  exists w' w'',
    generalUpdate w = Some (Ok, w') /\
    generalUpdate (atTime later w') = Some (Ok, w'') /\
    disk w'' = disk w' /\
    remoteCalls w'' = remoteCalls w'.
Proof.
  intros Hctx Hstale Hsrv Hwg Hlater. destruct w as [ctx tn clk [gf sf ff] wr srv e tr].
  exec_in Hctx. exec_in Hsrv. exec_in Hwg. exec_in Hlater. subst ctx srv.
  assert (Hfresh : (clk + GENERAL_ACCEPTABLE_INFO_FILE_AGE_SECS <? later) = false)
    by (apply Z.ltb_ge; exact Hlater).
  unfold atTime.
  destruct Hstale as [Hgf|[[bd t] [Hgf Hold]]]; exec_in Hgf; subst gf.
  - destruct (wr serverScoresPath) eqn:Hws;
      split_matches; eexists _, _; (split; [reflexivity|]);
      exec; rewrite Hfresh; repeat split.
  - exec_in Hold. apply Z.ltb_lt in Hold.
    destruct (wr serverScoresPath) eqn:Hws;
      split_matches; eexists _, _; (split; [reflexivity|]);
      exec; rewrite Hfresh; repeat split.
Qed.

Lemma refresh_not_repeated_within_age_witness :
  let doc := JObject [("obeliskServers", JArray [JString "tcp://a.example:9091"])] in
  let w := freshWorld false 100 (Some doc) (fun _ => true) in
  exists w' w'',
    generalUpdate w = Some (Ok, w') /\
    generalUpdate (atTime 102 w') = Some (Ok, w'') /\
    disk w'' = disk w' /\ remoteCalls w'' = 1%nat.
Proof.
  intros doc w.
  destruct (refresh_not_repeated_within_age w doc 102) as (w' & w'' & H1 & H2 & Hd & Hr).
  - reflexivity.
  - left. reflexivity.
  - reflexivity.
  - reflexivity.
  - vm_compute. discriminate.
  - exists w', w''. split; [exact H1|]. split; [exact H2|]. split; [exact Hd|].
    rewrite Hr. vm_compute in H1. injection H1 as <-. reflexivity.
Defined.

(** ** More on the reconciliation loop *)

Lemma serversMatch_matchIn (scores : json) (url : string) :
  serversMatch scores url = matchIn (json_array_items scores) url.
Proof. reflexivity. Qed.

Lemma addNewServer_known (scores e : json) :
  serversMatch scores (urlOf e) = true -> addNewServer scores e = scores.
Proof. intros H. unfold addNewServer. fold (urlOf e). rewrite H. reflexivity. Qed.

Lemma fold_addNewServer_known (entries : list json) (scores : json) :
  (forall e, In e entries -> serversMatch scores (urlOf e) = true) ->
  fold_left addNewServer entries scores = scores.
Proof.
  induction entries as [|e rest IH]; intros H; [reflexivity|].
  cbn [fold_left]. rewrite addNewServer_known by (apply H; left; reflexivity).
  apply IH. intros e' He'. apply H. right. exact He'.
Qed.

(** X8.  When every element of the fetched server array is carried, up
    to case, by a record of the score list, the loop leaves the score
    list exactly as it was. *)
Theorem known_servers_change_nothing (scores arrayJson : json) :
  (forall e, In e (json_array_items arrayJson) ->
     serversMatch scores (urlOf e) = true) ->
  addNewServers scores arrayJson = scores.
Proof. intros H. unfold addNewServers. apply fold_addNewServer_known. exact H. Qed.

Lemma known_servers_change_nothing_witness :
  let scores := JArray [JObject [("serverUrl", JString "TCP://A.example:9091");
                                 ("serverScore", JInteger 7)]] in
  addNewServers scores (JArray [JString "tcp://a.example:9091"]) = scores.
Proof.
  intros scores. apply known_servers_change_nothing.
  intros e [<-|[]]. reflexivity.
Defined.

Lemma addNewServers_covers (scores arrayJson e : json) :
  In e (json_array_items arrayJson) ->
  serversMatch (addNewServers scores arrayJson) (urlOf e) = true.
Proof.
  intros Hin. rewrite serversMatch_matchIn. unfold addNewServers.
  rewrite addNewServers_items. apply newRecords_complete. exact Hin.
Qed.

(** X9.  Reconciling twice against the same fetched array is
    reconciling once: the second pass appends nothing. *)
Theorem reconcile_idempotent (scores arrayJson : json) :
  addNewServers (addNewServers scores arrayJson) arrayJson =
  addNewServers scores arrayJson.
Proof.
  unfold addNewServers at 1. apply fold_addNewServer_known.
  intros e He. apply addNewServers_covers. exact He.
Qed.

Lemma distinctUrls_snoc (items : list json) (r : json) :
  distinctUrls items ->
  matchIn items (ServerScoreJson.serverUrl r) = false ->
  distinctUrls (items ++ [r]).
Proof.
  unfold distinctUrls. induction 1 as [|a l Ha Hl IH]; intros Hm.
  - cbn. constructor; [constructor | constructor].
  - cbn [matchIn existsb] in Hm. unfold matchIn in Hm. cbn [existsb] in Hm.
    apply orb_false_iff in Hm as [Hm1 Hm2]. cbn [app]. constructor.
    + apply Forall_app. split; [exact Ha|]. constructor; [exact Hm1 | constructor].
    + apply IH. exact Hm2.
Qed.

Lemma fold_addNewServer_distinct (entries : list json) :
  forall scores,
    distinctUrls (json_array_items scores) ->
    distinctUrls (json_array_items (fold_left addNewServer entries scores)).
Proof.
  induction entries as [|e rest IH]; intros scores H; [exact H|].
  cbn [fold_left]. apply IH. rewrite addNewServer_items.
  destruct (matchIn (json_array_items scores) (urlOf e)) eqn:Hm.
  - rewrite app_nil_r. exact H.
  - apply distinctUrls_snoc; [exact H|]. rewrite ssjNew_serverUrl. exact Hm.
Qed.

(** X10.  The loop keeps the score list free of repeated URLs: if no
    record of the list carries the URL of an earlier one up to case,
    the same holds of the reconciled list, whatever the fetched array
    holds (repeated servers, different spellings, elements that are not
    strings). *)
Theorem reconcile_keeps_urls_distinct (scores arrayJson : json) :
  distinctUrls (json_array_items scores) ->
  distinctUrls (json_array_items (addNewServers scores arrayJson)).
Proof. intros H. unfold addNewServers. apply fold_addNewServer_distinct. exact H. Qed.

Lemma reconcile_keeps_urls_distinct_witness :
  distinctUrls
    (json_array_items
       (addNewServers
          (JArray [JObject [("serverUrl", JString "A"); ("serverScore", JInteger 5)]])
          (JArray [JString "b"; JString "a"; JString "B"; JInteger 3; JNull]))).
Proof.
  apply reconcile_keeps_urls_distinct.
  unfold distinctUrls. cbn. constructor; [constructor | constructor].
Defined.

(** X11.  An element of the fetched server array that is not a string
    is not skipped: after the loop the score list has a record with the
    empty URL. *)
Theorem non_string_server_recorded_as_empty (scores arrayJson e : json) :
  In e (json_array_items arrayJson) ->
  json_is_string e = false ->
  exists r,
    In r (json_array_items (addNewServers scores arrayJson)) /\
    ServerScoreJson.serverUrl r = "".
Proof.
  intros Hin Hns. pose proof (addNewServers_covers scores arrayJson e Hin) as Hm.
  unfold urlOf in Hm. rewrite Hns in Hm. rewrite serversMatch_matchIn in Hm.
  destruct (matchIn_exists _ _ Hm) as (r & Hr & Heq). exists r. split; [exact Hr|].
  destruct (ServerScoreJson.serverUrl r); [reflexivity | discriminate Heq].
Qed.

Lemma non_string_server_recorded_as_empty_witness :
  exists r,
    In r (json_array_items
            (addNewServers (JArray []) (JArray [JString "tcp://a.example:9091"; JInteger 9]))) /\
    ServerScoreJson.serverUrl r = "".
Proof.
  apply (non_string_server_recorded_as_empty _ _ (JInteger 9)).
  - right. left. reflexivity.
  - reflexivity.
Defined.


(** ** The server lists *)

(** X12.  In every state of the process the bitcoin-server accessor
    returns, and what it returns is never the empty list. *)
Theorem bitcoin_servers_never_empty (w : World) :
  exists servers w',
    generalBitcoinServers w = Some (servers, w') /\ servers <> [].
Proof.
  unfold generalBitcoinServers, bind, testnet.
  destruct (isTestnet w); [eexists _, _; split; [reflexivity | discriminate]|].
  destruct (generalLoad_total w) as (g & w' & ->). cbv zeta.
  destruct (stringElements (GeneralJson.bitcoinServers g)) as [|s l] eqn:E; cbn.
  - eexists _, _. split; [reflexivity | discriminate].
  - eexists _, _. split; [reflexivity | discriminate].
Qed.

(** X13.  In every state of the process the sync-server accessor
    returns, and what it returns is never the empty list. *)
Theorem sync_servers_never_empty (w : World) :
  exists servers w',
    generalSyncServers w = Some (servers, w') /\ servers <> [].
Proof.
  unfold generalSyncServers, bind.
  destruct (generalLoad_total w) as (g & w' & ->). cbv zeta.
  destruct (stringElements (GeneralJson.syncServers g)) as [|s l] eqn:E; cbn.
  - eexists _, _. split; [reflexivity | discriminate].
  - eexists _, _. split; [reflexivity | discriminate].
Qed.

(** X14.  On a mainnet build with a cached configuration that lists at
    least one server, the bitcoin-server accessor returns the string
    elements of the cached list, in order and nothing else, however old
    the file is; it sends no request and leaves the disk alone. *)
Theorem cached_bitcoin_servers_served (w : World) (doc : json) (t : Z) :
  gContext w = true ->
  isTestnet w = false ->
  generalFile (disk w) = Some (mkFile (Some doc) t) ->
  stringElements (GeneralJson.bitcoinServers doc) <> [] ->
  exists w',
    generalBitcoinServers w = Some (stringElements (GeneralJson.bitcoinServers doc), w') /\
    disk w' = disk w /\
    remoteCalls w' = remoteCalls w.
Proof.
  intros Hctx Htn Hgf Hne. destruct w as [ctx tn clk [gf sf ff] wr srv e tr].
  exec_in Hctx. exec_in Htn. exec_in Hgf. subst ctx tn gf. exec.
  destruct (stringElements (GeneralJson.bitcoinServers doc)) as [|s l]; [contradiction|].
  cbn. eexists. repeat split.
Qed.

Lemma cached_bitcoin_servers_served_witness :
  let doc := JObject [("obeliskServers",
                       JArray [JString "tcp://a.example:9091"; JInteger 4;
                               JString "stratum://b.example:50001"])] in
  let w := mkWorld true false 99999 (mkDisk (Some (mkFile (Some doc) 0)) None None)
             (fun _ => true) None initialEstimator [] in
  exists w',
    generalBitcoinServers w =
      Some (["tcp://a.example:9091"; "stratum://b.example:50001"], w') /\
    disk w' = disk w /\ remoteCalls w' = 0%nat.
Proof.
  intros doc w.
  destruct (cached_bitcoin_servers_served w doc 0) as (w' & H & Hd & Hr).
  - reflexivity.
  - reflexivity.
  - reflexivity.
  - discriminate.
  - exists w'. split; [exact H|]. split; [exact Hd | exact Hr].
Defined.

(** ** The fee table *)

Lemma fixFees_length (c : list Z) : length c = 7%nat -> length (fixFees c) = 7%nat.
Proof.
  intros Hlen. unfold fixFees. cbv zeta.
  repeat match goal with
         | |- context [if ?b then _ else _] => destruct b
         end; rewrite ?length_insert; exact Hlen.
Qed.

Lemma fixFees_prefixMin (c : list Z) (k : nat) :
  length c = 7%nat -> (1 <= k <= 6)%nat -> fixFees c !!! k = prefixMin c k.
Proof.
  intros Hlen Hk.
  do 7 (destruct c as [|? c]; [discriminate Hlen|]).
  destruct c; [|discriminate Hlen].
  assert (k = 1 \/ k = 2 \/ k = 3 \/ k = 4 \/ k = 5 \/ k = 6)%nat as Hc by lia.
  destruct Hc as [->|[->|[->|[->|[->| ->]]]]];
    unfold fixFees; cbn;
    repeat match goal with
           | |- context [?a >? ?b] =>
               is_var a; is_var b; destruct (Z.gtb_spec a b); cbn
           end; lia.
Qed.

(** X15.  The fee returned for target k is the smallest of the fees
    chosen for targets 1 to k: the clamping turns the chosen table into
    its running minimum. *)
Theorem fee_is_running_minimum (feeJson estimateFeesJson : json) (k : nat) :
  (1 <= k <= 6)%nat ->
  confirmFees (bitcoinFeeInfo feeJson estimateFeesJson) !!! k =
  prefixMin (chooseFees feeJson estimateFeesJson) k.
Proof.
  intros Hk. cbn [confirmFees bitcoinFeeInfo].
  apply fixFees_prefixMin; [apply chooseFees_length | exact Hk].
Qed.

Lemma fee_is_running_minimum_witness :
  let feeJson := JObject [("confirmFees1", JInteger 50); ("confirmFees2", JInteger 70);
                          ("confirmFees3", JInteger 40); ("confirmFees4", JInteger 45);
                          ("confirmFees5", JInteger 10); ("confirmFees6", JInteger 20)] in
  confirmFees (bitcoinFeeInfo feeJson (JObject [("confirmFees4", JInteger 30)])) !!! 4%nat
  = 30.
Proof.
  intros feeJson.
  rewrite (fee_is_running_minimum feeJson (JObject [("confirmFees4", JInteger 30)]) 4)
    by lia.
  reflexivity.
Defined.

Lemma fixFees_unchanged_iff (c : list Z) :
  length c = 7%nat -> (fixFees c = c <-> nonIncreasing c).
Proof.
  intros Hlen.
  do 7 (destruct c as [|? c]; [discriminate Hlen|]).
  destruct c; [|discriminate Hlen].
  unfold nonIncreasing. split.
  - unfold fixFees; cbn;
      repeat match goal with
             | |- context [?a >? ?b] =>
                 is_var a; is_var b; destruct (Z.gtb_spec a b); cbn
             end; intros Heq; try (injection Heq; intros); repeat split; lia.
  - intros (H1 & H2 & H3 & H4 & H5). cbn in H1, H2, H3, H4, H5. unfold fixFees; cbn;
      repeat match goal with
             | |- context [?a >? ?b] =>
                 is_var a; is_var b; destruct (Z.gtb_spec a b); cbn
             end; first [reflexivity | exfalso; lia].
Qed.

(** X16.  The clamping leaves a fee table unchanged exactly when the
    table is already non-increasing from target 1 to target 6, and
    clamping a second time changes nothing. *)
Theorem fixFees_fixpoint (c : list Z) :
  length c = 7%nat ->
  (fixFees c = c <-> nonIncreasing c) /\
  fixFees (fixFees c) = fixFees c.
Proof.
  intros Hlen. split; [apply fixFees_unchanged_iff; exact Hlen|].
  apply fixFees_unchanged_iff; [apply fixFees_length; exact Hlen|].
  apply fixFees_nonIncreasing. exact Hlen.
Qed.

Lemma fixFees_fixpoint_witness :
  fixFees [0; 9; 8; 8; 3; 2; 2] = [0; 9; 8; 8; 3; 2; 2] /\
  fixFees (fixFees [0; 1; 2; 3; 4; 5; 6]) = fixFees [0; 1; 2; 3; 4; 5; 6].
Proof.
  destruct (fixFees_fixpoint [0; 9; 8; 8; 3; 2; 2] eq_refl) as [[_ H] _].
  destruct (fixFees_fixpoint [0; 1; 2; 3; 4; 5; 6] eq_refl) as [_ H'].
  split; [apply H; unfold nonIncreasing; cbn; lia | exact H'].
Defined.

(** ** Loading *)

Lemma estimateFeesLoad_reads (w : World) :
  gContext w = true ->
  exists w',
    estimateFeesLoad w =
      Some (match feeCacheFile (disk w) with
            | Some (mkFile (Some doc) _) => doc
            | _ => emptyJson
            end, w') /\
    disk w' = disk w /\ estimator w' = estimator w /\
    remoteCalls w' = remoteCalls w.
Proof.
  intros Hctx. destruct w as [ctx tn clk [gf sf ff] wr srv e tr].
  exec_in Hctx. subst ctx.
  destruct ff as [[[doc|] t]|]; exec; eexists; repeat split.
Qed.

(** X17.  With the context set, loading the fee estimates or the server
    scores only reads: each returns the document on disk (the empty
    document when the file is absent or is not JSON), sends no request,
    and leaves disk and aggregator as they were. *)
Theorem cache_loads_only_read (w : World) :
  gContext w = true ->
  (exists w',
     estimateFeesLoad w =
       Some (match feeCacheFile (disk w) with
             | Some (mkFile (Some doc) _) => doc
             | _ => emptyJson
             end, w') /\
     disk w' = disk w /\ estimator w' = estimator w /\
     remoteCalls w' = remoteCalls w) /\
  (exists w',
     serverScoresLoad w = Some (storedScores w, w') /\
     disk w' = disk w /\ estimator w' = estimator w /\
     remoteCalls w' = remoteCalls w).
Proof.
  intros Hctx. split; [apply estimateFeesLoad_reads; exact Hctx|].
  destruct w as [ctx tn clk [gf sf ff] wr srv e tr].
  exec_in Hctx. subst ctx. unfold storedScores.
  destruct sf as [[[doc|] t]|]; exec; eexists; repeat split.
Qed.

Lemma cache_loads_only_read_witness :
  let w := mkWorld true false 50
             (mkDisk None (Some (mkFile None 3))
                     (Some (mkFile (Some (JObject [("confirmFees1", JInteger 12)])) 4)))
             (fun _ => true) None initialEstimator [] in
  (exists w', estimateFeesLoad w = Some (JObject [("confirmFees1", JInteger 12)], w') /\
              disk w' = disk w) /\
  (exists w', serverScoresLoad w = Some (emptyJson, w') /\ disk w' = disk w).
Proof.
  intros w. destruct (cache_loads_only_read w eq_refl)
    as ((w1 & H1 & Hd1 & _) & (w2 & H2 & Hd2 & _)).
  split; [exists w1 | exists w2]; auto.
Defined.

(** [generalLoad] never touches the fee cache file or the context. *)
Lemma generalLoad_keeps_feeCache (w : World) :
  exists g w',
    generalLoad w = Some (g, w') /\
    feeCacheFile (disk w') = feeCacheFile (disk w) /\
    gContext w' = gContext w.
Proof.
  destruct w as [ctx tn clk [gf sf ff] wr srv e tr].
  destruct ctx; [|exec; eexists _, _; repeat split].
  destruct (wr generalPath) eqn:Hwg; destruct (wr serverScoresPath) eqn:Hws;
    split_matches; eexists _, _; repeat split.
Qed.

Lemma chooseFees_feesJson (feeJson : json) (fees : list Z) :
  chooseFees feeJson (feesJson fees) !!! 1%nat
    = orElse (fees !!! 1%nat) (BitcoinFeesJson.confirmFees1 feeJson) /\
  chooseFees feeJson (feesJson fees) !!! 2%nat
    = orElse (fees !!! 2%nat) (BitcoinFeesJson.confirmFees2 feeJson) /\
  chooseFees feeJson (feesJson fees) !!! 3%nat
    = orElse (fees !!! 3%nat) (BitcoinFeesJson.confirmFees3 feeJson) /\
  chooseFees feeJson (feesJson fees) !!! 4%nat
    = orElse (fees !!! 4%nat) (BitcoinFeesJson.confirmFees4 feeJson) /\
  chooseFees feeJson (feesJson fees) !!! 5%nat
    = orElse (fees !!! 5%nat) (BitcoinFeesJson.confirmFees5 feeJson).
Proof. repeat split; reflexivity. Qed.

Lemma orElse_positive (estimate fallback : Z) :
  0 < estimate -> orElse estimate fallback = estimate.
Proof. intros H. unfold orElse. destruct (Z.eqb_spec estimate 0); [lia | reflexivity]. Qed.

Lemma chooseFees_saved_means (feeJson : json) (fees : list Z) (k : nat) :
  (forall b, (1 <= b <= 5)%nat -> 0 < fees !!! b) ->
  (1 <= k <= 5)%nat ->
  prefixMin (chooseFees feeJson (feesJson fees)) k = prefixMin fees k.
Proof.
  intros Hpos Hk.
  destruct (chooseFees_feesJson feeJson fees) as (H1 & H2 & H3 & H4 & H5).
  rewrite orElse_positive in H1 by (apply Hpos; lia).
  rewrite orElse_positive in H2 by (apply Hpos; lia).
  rewrite orElse_positive in H3 by (apply Hpos; lia).
  rewrite orElse_positive in H4 by (apply Hpos; lia).
  rewrite orElse_positive in H5 by (apply Hpos; lia).
  assert (k = 1 \/ k = 2 \/ k = 3 \/ k = 4 \/ k = 5)%nat as Hc by lia.
  destruct Hc as [->|[->|[->|[->| ->]]]]; cbn [prefixMin];
    rewrite ?H1, ?H2, ?H3, ?H4, ?H5; reflexivity.
Qed.

(** X18.  What the aggregator saves is what the fee table serves: after
    a submission that saved the fee document, [generalBitcoinFeeInfo]
    returns for each target k from 1 to 5 the smallest of the stored
    means of buckets 1 to k, whatever the cached configuration holds. *)
Theorem saved_means_served (history : list (nat * Z)) (blocks : nat) (feeBase : Z)
    (w : World) (k : nat) :
  gContext w = true ->
  estimator w = initialEstimator ->
  Forall (fun s => (fst s < 6)%nat /\ 0 <= snd s) (history ++ [(blocks, feeBase)]) ->
  sum (map snd (history ++ [(blocks, feeBase)])) < 2 ^ 53 ->
  Z.of_nat (length (history ++ [(blocks, feeBase)])) < 2 ^ 64 ->
  writable w feeCachePath = true ->
  (1 <= k <= 5)%nat ->
  exists w1 st w2,
    submitAll history w = Some (tt, w1) /\
    generalEstimateFeesUpdate blocks feeBase w1 = Some (st, w2) /\
    ((forall b, (1 <= b <= 5)%nat -> 0 < estimatedFees (estimator w2) !!! b) ->
     exists out w3,
       generalBitcoinFeeInfo w2 = Some (out, w3) /\
       confirmFees out !!! k = prefixMin (estimatedFees (estimator w2)) k).
Proof.
  intros Hctx He HF Hs Hl Hwr Hk.
  destruct (EstimatorExtras.submit_one_more history blocks feeBase w Hctx He HF Hs Hl)
    as (w1 & st & w2 & Hrun & Hupd & _ & _ & Hctx2 & _ & _ & Hsave & _).
  exists w1, st, w2. split; [exact Hrun|]. split; [exact Hupd|].
  intros Hpos. pose proof Hpos as Hall. apply EstimatorFacts.allBucketsPositive_iff in Hall.
  destruct (Hsave Hall) as (_ & Hok & _). destruct (Hok Hwr) as [_ Hd].
  destruct (generalLoad_keeps_feeCache w2) as (g & w3 & Hg & Hfile & Hctx3).
  rewrite Hctx2 in Hctx3. rewrite Hd in Hfile. cbn [writeFile feeCacheFile] in Hfile.
  destruct (estimateFeesLoad_reads w3 Hctx3) as (w4 & Hest & _).
  rewrite Hfile in Hest.
  eexists _, w4. split.
  - unfold generalBitcoinFeeInfo, bind. rewrite Hg, Hest. reflexivity.
  - cbn [confirmFees bitcoinFeeInfo].
    rewrite fixFees_prefixMin by (try apply chooseFees_length; lia).
    apply chooseFees_saved_means; assumption.
Qed.

Lemma saved_means_served_witness :
  exists w1 st w2 out w3,
    submitAll [(1%nat, 5); (2%nat, 9); (3%nat, 3); (4%nat, 2)]
              (freshWorld false 7 None (fun _ => true)) = Some (tt, w1) /\
    generalEstimateFeesUpdate 5 4 w1 = Some (st, w2) /\
    generalBitcoinFeeInfo w2 = Some (out, w3) /\
    confirmFees out !!! 5%nat = 2.
Proof.
  destruct (saved_means_served
              [(1%nat, 5); (2%nat, 9); (3%nat, 3); (4%nat, 2)] 5 4
              (freshWorld false 7 None (fun _ => true)) 5)
    as (w1 & st & w2 & Hrun & Hupd & Hserved).
  - reflexivity.
  - reflexivity.
  - repeat constructor; cbn; lia.
  - vm_compute. reflexivity.
  - vm_compute. reflexivity.
  - reflexivity.
  - lia.
  - assert (Hw1 : w1 = setEstimator (freshWorld false 7 None (fun _ => true))
                         (mkEstimator true [0; 5; 9; 3; 2; 0] [0; 1; 1; 1; 1; 0])).
    { vm_compute in Hrun. injection Hrun as <-. reflexivity. }
    assert (Hfees : estimatedFees (estimator w2) = [0; 5; 9; 3; 2; 4]).
    { rewrite Hw1 in Hupd. vm_compute in Hupd. injection Hupd as _ <-. reflexivity. }
    destruct Hserved as (out & w3 & Hout & Hk).
    + intros b Hb. rewrite Hfees.
      assert (b = 1 \/ b = 2 \/ b = 3 \/ b = 4 \/ b = 5)%nat as Hc by lia.
      destruct Hc as [->|[->|[->|[->| ->]]]]; reflexivity.
    + exists w1, st, w2, out, w3. split; [exact Hrun|]. split; [exact Hupd|].
      split; [exact Hout|]. rewrite Hk, Hfees. reflexivity.
Defined.

(** ** generalAirbitzFeeInfo *)

Lemma insertAddresses_fold (entries : list json) :
  forall (acc : gset string) (a : string),
    a ∈ fold_left (fun out stringJson =>
                     if json_is_string stringJson
                     then {[ json_string_value stringJson ]} ∪ out
                     else out) entries acc
    <-> a ∈ acc \/ In (JString a) entries.
Proof.
  induction entries as [|e rest IH]; intros acc a; cbn [fold_left].
  - cbn. tauto.
  - rewrite IH. destruct e; cbn; try (split; [intros [H|H]; auto | intros [H|[H|H]]; auto; discriminate]).
    rewrite elem_of_union, elem_of_singleton. split.
    + intros [[->|H]|H]; auto.
    + intros [H|[H|H]]; auto. injection H as ->. auto.
Qed.

(** X19.  In every state of the process [generalAirbitzFeeInfo]
    returns, and an address is in the set it returns exactly when it is
    a string element of the address array of the loaded configuration:
    elements that are not strings are skipped and repeats collapse. *)
Theorem airbitz_fee_addresses (w : World) :
  exists generalJson out w',
    generalLoad w = Some (generalJson, w') /\
    generalAirbitzFeeInfo w = Some (out, w') /\
    forall a : string,
      a ∈ addresses out <->
      In (JString a)
         (json_array_items
            (AirbitzFeesJson.addresses (GeneralJson.airbitzFees generalJson))).
Proof.
  destruct (generalLoad_total w) as (g & w' & Hg).
  eexists g, _, w'. split; [exact Hg|]. split.
  - unfold generalAirbitzFeeInfo, bind. rewrite Hg. reflexivity.
  - intros a. cbn [addresses]. unfold insertAddresses. rewrite insertAddresses_fold.
    rewrite elem_of_empty. tauto.
Qed.

(** X20.  With no cache file on disk and a server that cannot be
    reached, [generalAirbitzFeeInfo] still returns: no fee address, all
    bounds 0, and the built-in send threshold, period, payee and
    category. *)
Theorem airbitz_fee_defaults (w : World) :
  disk w = mkDisk None None None ->
  server w = None ->
  exists w',
    generalAirbitzFeeInfo w =
      Some (mkAirbitzFeeInfo ∅ 0 0 0 0 0 4000 604800 "Airbitz" "Expense:Fees", w') /\
    disk w' = disk w.
Proof.
  intros Hdisk Hsrv. destruct w as [ctx tn clk d wr srv e tr].
  exec_in Hdisk. exec_in Hsrv. subst d srv.
  unfold generalAirbitzFeeInfo. destruct ctx; exec; eexists; split; reflexivity.
Qed.

Lemma airbitz_fee_defaults_witness :
  exists w',
    generalAirbitzFeeInfo (freshWorld false 100 None (fun _ => true)) =
      Some (mkAirbitzFeeInfo ∅ 0 0 0 0 0 4000 604800 "Airbitz" "Expense:Fees", w').
Proof.
  destruct (airbitz_fee_defaults (freshWorld false 100 None (fun _ => true)))
    as (w' & H & _).
  - reflexivity.
  - reflexivity.
  - exists w'. exact H.
Defined.

End CacheExtras.

(* ===================================================================== *)
(** * Further properties of accounts                                     *)
(* ===================================================================== *)

Module AccountExtras.
Import Login Account Notions.

Section Externals.

Context {Repos Wallets : Type}.
Variable syncRepo : string -> string -> bool -> Repos -> (Status * bool) * Repos.
Variable syncEnsureRepo : string -> string -> string -> Repos -> Status * Repos.
Variable walletsLoad : string -> Repos -> Wallets -> Status * Wallets.
Variable loginDir : Login -> string.
Variable loginSyncDir : Login -> string.
Variable deriveRepositoryId : DataChunk -> string -> string.

#[local] Abbreviation sync := (Account.sync syncRepo syncEnsureRepo walletsLoad loginDir).
#[local] Abbreviation load := (Account.load syncEnsureRepo walletsLoad loginDir).
#[local] Abbreviation create :=
  (Account.create syncEnsureRepo walletsLoad loginDir loginSyncDir deriveRepositoryId).

(** X21.  [Account::load] ensures the working copy before it loads the
    wallets.  If the ensure step fails, its error is returned, the
    wallet list is not loaded and stays as it was.  If it succeeds, the
    wallets are loaded from the repository state the ensure step left,
    the status is the one of that load, and what the load left in the
    wallet list stays there even when the load failed. *)
Theorem load_ensures_then_loads (s : State) (st : Status) (r : Repos) :
  syncEnsureRepo (dir (account s)) (loginDir (login (account s)) ++ "tmp/")%string
                 (syncKey_ (account s)) (repos s) = (st, r) ->
  repos (snd (load s)) = r /\
  match st with
  | Err c =>
      fst (load s) = Err c /\
      wallets (account (snd (load s))) = wallets (account s) /\
      invocations (snd (load s)) =
        InvSyncEnsureRepo (loginDir (login (account s)) ++ "tmp/")%string :: invocations s
  | Ok =>
      fst (load s) = fst (walletsLoad (dir (account s)) r (wallets (account s))) /\
      wallets (account (snd (load s)))
        = snd (walletsLoad (dir (account s)) r (wallets (account s))) /\
      invocations (snd (load s)) =
        InvWalletsLoad
          :: InvSyncEnsureRepo (loginDir (login (account s)) ++ "tmp/")%string
          :: invocations s
  end.
Proof.
  intros He. unfold Account.load. rewrite He. destruct st as [|c].
  - destruct (walletsLoad _ _ _) as [[|c] ws]; cbn; auto.
  - cbn. auto.
Qed.

(** The identity of an account: everything but its wallet list. *)
Lemma load_keeps_identity (s : State) :
  login (account (snd (load s))) = login (account s) /\
  dir_ (account (snd (load s))) = dir_ (account s) /\
  Account.dataKey_ (account (snd (load s))) = Account.dataKey_ (account s) /\
  syncKey_ (account (snd (load s))) = syncKey_ (account s) /\
  exists calls, invocations (snd (load s)) = calls ++ invocations s.
Proof.
  unfold Account.load.
  destruct (syncEnsureRepo _ _ _ _) as [[|c] r].
  - destruct (walletsLoad _ _ _) as [[|c] ws]; cbn; repeat split; auto;
      eexists [_; _]; reflexivity.
  - cbn. repeat split; auto. eexists [_]. reflexivity.
Qed.

(** X22.  Whatever the pull, the ensure step and the wallet load do,
    [Account::sync] changes nothing of the account but its wallet list:
    login, directory, data key and sync key stay; and the pull is the
    first thing it calls. *)
Theorem sync_keeps_identity (s : State) (dirty : bool) :
  login (account (snd (sync dirty s))) = login (account s) /\
  dir_ (account (snd (sync dirty s))) = dir_ (account s) /\
  Account.dataKey_ (account (snd (sync dirty s))) = Account.dataKey_ (account s) /\
  syncKey_ (account (snd (sync dirty s))) = syncKey_ (account s) /\
  exists calls,
    invocations (snd (sync dirty s)) = calls ++ InvSyncRepo :: invocations s.
Proof.
  unfold Account.sync.
  destruct (syncRepo _ _ _ _) as [[[|c] d] r].
  - destruct d.
    + pose proof (load_keeps_identity (mkState (account s) r (InvSyncRepo :: invocations s)))
        as (H1 & H2 & H3 & H4 & calls & H5).
      destruct (Account.load _ _ _ _) as [[|c] s2]; cbn [fst snd account invocations] in *;
        repeat split; auto; exists calls; exact H5.
    + cbn. repeat split; auto. exists []. reflexivity.
  - cbn. repeat split; auto. exists []. reflexivity.
Qed.

(** X23.  [Account::create] returns an account exactly when it returns
    success.  The account it returns belongs to the login, lives in the
    login's sync directory, carries the keys of the descriptor
    [repoFind] gave for the account type, and has been through one
    ensure step and one wallet load, in this order, both successful. *)
Theorem create_all_or_nothing (l : Login) (accountType : string) (noWallets : Wallets)
    (remote : Remote) (r : Repos) :
  let result := snd (fst (create l accountType noWallets remote r)) in
  (fst (fst (create l accountType noWallets remote r)) = Ok <-> result <> None) /\
  forall s, result = Some s ->
    exists info,
      fst (repoFind deriveRepositoryId l (mkRepoInfo [] "") accountType true remote)
        = (Ok, info) /\
      login (account s) = l /\
      dir_ (account s) = loginSyncDir l /\
      Account.dataKey_ (account s) = repoDataKey info /\
      syncKey_ (account s) = repoSyncKey info /\
      invocations s = [InvWalletsLoad; InvSyncEnsureRepo (loginDir l ++ "tmp/")%string] /\
      load (mkState (newAccount loginSyncDir l (repoDataKey info) (repoSyncKey info) noWallets)
                    r []) = (Ok, s).
Proof.
  cbv zeta. unfold Account.create.
  destruct (repoFind deriveRepositoryId l (mkRepoInfo [] "") accountType true remote)
    as [[[|c] info] remote'] eqn:Hfind.
  - destruct (Account.load _ _ _ _) as [[|c] s0] eqn:Hload.
    + cbn [fst snd]. split; [split; [discriminate | reflexivity]|].
      intros s Hs. injection Hs as <-. exists info. split; [reflexivity|].
      revert Hload. unfold Account.load. cbn [account login dir newAccount wallets
        syncKey_ repos invocations].
      destruct (syncEnsureRepo _ _ _ _) as [[|c] r']; [|discriminate].
      destruct (walletsLoad _ _ _) as [[|c] ws] eqn:Hw; [|discriminate].
      intros H. injection H as <-. cbn. repeat split; reflexivity.
    + cbn [fst snd]. split; [split; [discriminate | congruence]|]. discriminate.
  - cbn [fst snd]. split; [split; [discriminate | congruence]|]. discriminate.
Qed.

End Externals.

Lemma load_ensures_then_loads_witness :
  let syncEnsureRepo := fun (_ _ _ : string) (r : nat) => (Err ABC_CC_Error, r) in
  let walletsLoad := fun (_ : string) (r : nat) (_ : list string) => (Ok, repeat "wallet" r) in
  let loginDir := fun l : Login => ("/accounts/" ++ lobby l ++ "/")%string in
  let a := mkAccount (mkLogin "alice" [] "") "/accounts/alice/sync/" [] "5eed"
                     ["savings"] in
  fst (Account.load syncEnsureRepo walletsLoad loginDir (mkState a 3%nat []))
    = Err ABC_CC_Error /\
  wallets (account (snd (Account.load syncEnsureRepo walletsLoad loginDir
                                      (mkState a 3%nat [])))) = ["savings"].
Proof.
  intros syncEnsureRepo walletsLoad loginDir a.
  destruct (load_ensures_then_loads syncEnsureRepo walletsLoad loginDir
              (mkState a 3%nat []) (Err ABC_CC_Error) 3%nat eq_refl)
    as (_ & Hst & Hw & _).
  split; [exact Hst | exact Hw].
Defined.

Lemma create_all_or_nothing_witness :
  let syncEnsureRepo := fun (_ _ _ : string) (r : nat) => (Ok, r) in
  let walletsLoad := fun (_ : string) (r : nat) (_ : list string) => (Ok, repeat "wallet" r) in
  let loginDir := fun l : Login => ("/accounts/" ++ lobby l ++ "/")%string in
  let loginSyncDir := fun l : Login => ("/accounts/" ++ lobby l ++ "/sync/")%string in
  let derive := fun (key : DataChunk) (type : string) =>
                  (type ++ "-" ++ string_of_list_byte key)%string in
  let l := mkLogin "alice" [Byte.x6b] "" in
  exists s,
    Account.create syncEnsureRepo walletsLoad loginDir loginSyncDir derive l "account"
                   [] (mkRemote true []) 2%nat
      = ((Ok, Some s), mkRemote true ["account-k"]) /\
    dir_ (account s) = "/accounts/alice/sync/" /\
    syncKey_ (account s) = "account-k" /\
    wallets (account s) = ["wallet"; "wallet"].
Proof.
  intros syncEnsureRepo walletsLoad loginDir loginSyncDir derive l.
  destruct (create_all_or_nothing syncEnsureRepo walletsLoad loginDir loginSyncDir derive
              l "account" [] (mkRemote true []) 2%nat) as [_ Hacc].
  eexists. split; [reflexivity|].
  edestruct Hacc as (info & Hfind & _ & Hdir & _ & Hkey & _ & _); [reflexivity|].
  injection Hfind as <-.
  split; [exact Hdir|]. split; [exact Hkey | reflexivity].
Defined.

End AccountExtras.
